(** * Plane_nd: least-squares fit of an n-dimensional plane

    A shallow embedding of [Plane_nd.py].  The class stores a sample set
    (independent vectors [ivals], dependent values [dvals]) and fits
    [f(x) = c0 + c1*x1 + ... + cd*xd] with scipy's [leastsq].

    Scalars are IEEE binary64 numbers (numpy's float64), modelled by Rocq's
    primitive floats.  One-dimensional arrays are lists, two-dimensional
    arrays are lists of rows.  Methods run in a state-and-exception monad
    over the object and the standard output, so that what a call reads,
    writes and raises is explicit. *)

From Stdlib Require Import String.
From Stdlib Require Import List ZArith Lia Bool.
From Stdlib Require Import FunctionalExtensionality.
From Stdlib Require Import Floats.
From Stdlib Require Uint63.
Import ListNotations.

Set Warnings "-inexact-float".

(* ================================================================== *)
(** * Python results and the numpy operations the class uses            *)
(* ================================================================== *)

(** The exceptions that can escape the methods: numpy's shape and
    empty-sequence errors ([ValueError]), an index out of bounds
    ([IndexError]), and scipy's improper-input error ([TypeError]). *)
Inductive exn : Type := ValueError | IndexError | TypeError.

Inductive result (A : Type) : Type :=
| Ok (a : A)
| Raise (e : exn).
Arguments Ok {A} a.
Arguments Raise {A} e.

(** Conversion of a Python [int] operand to float64 in mixed arithmetic. *)
Definition float_of_Z (z : Z) : float :=
  if (z <? 0)%Z then (- of_uint63 (Uint63.of_Z (- z)))%float
  else of_uint63 (Uint63.of_Z z).

Definition float_of_nat (n : nat) : float := float_of_Z (Z.of_nat n).

Module np.

(** [np.empty(n)]: the cells are unspecified; [zcoord] overwrites every
    one of them before it returns, so their content is never observed. *)
Definition empty (n : nat) : list float := repeat 0%float n.

(** [np.zeros(n)] *)
Definition zeros (n : nat) : list float := repeat 0%float n.

(** [x[lo:hi]] for [0 <= lo], [0 <= hi]: a slice never raises. *)
Definition slice {A : Type} (x : list A) (lo hi : nat) : list A :=
  firstn (hi - lo) (skipn lo x).

(** [x[i]] *)
Definition get_item {A : Type} (x : list A) (i : nat) : result A :=
  match nth_error x i with
  | Some v => Ok v
  | None => Raise IndexError
  end.

(** [z[i] = v] *)
Definition set_item (z : list float) (i : nat) (v : float)
  : result (list float) :=
  if i <? length z then Ok (firstn i z ++ v :: skipn (S i) z)
  else Raise IndexError.

(** [z[lo:hi] = src]: the source must have the length of the target
    slice, or length one (it is then broadcast over the slice). *)
Definition set_slice (z : list float) (lo hi : nat) (src : list float)
  : result (list float) :=
  let n := length (slice z lo hi) in
  if length src =? n then
    Ok (firstn lo z ++ src ++ skipn (lo + n) z)
  else if length src =? 1 then
    Ok (firstn lo z ++ repeat (hd 0%float src) n ++ skipn (lo + n) z)
  else Raise ValueError.

(** Elementwise product of two vectors of equal length. *)
Fixpoint mul (z c : list float) : list float :=
  match z, c with
  | a :: z', b :: c' => (a * b)%float :: mul z' c'
  | _, _ => []
  end.

(** [z * c] where [z] has shape (n,) and [c] is the only row of a
    matrix of shape (1, L): the row of the broadcast product, of shape
    (1, max n L).  The shapes agree when [n = L] or one of them is 1. *)
Definition broadcast_mul (z c : list float) : result (list float) :=
  if length z =? length c then Ok (mul z c)
  else if length c =? 1 then Ok (map (fun a => (a * hd 0 c)%float) z)
  else if length z =? 1 then Ok (map (fun b => (hd 0 z * b)%float) c)
  else Raise ValueError.

(** The scan shared by [argmax] and [argmin].  [mp] is the running
    extremum, [best] its index, [i] the index of the head of [l].  An
    element replaces the extremum when [keep x mp] is false; the test
    is negated so that a NaN replaces it, and the scan stops at the
    first NaN. *)
Fixpoint scan (keep : float -> float -> bool)
         (mp : float) (best i : nat) (l : list float) : nat :=
  if is_nan mp then best
  else match l with
       | [] => best
       | x :: l' =>
           if keep x mp then scan keep mp best (S i) l'
           else scan keep x i (S i) l'
       end.

(** The index computed by the scan on a non-empty column. *)
Definition scan_index (keep : float -> float -> bool) (col : list float)
  : nat :=
  match col with
  | [] => 0
  | x :: l => scan keep x 0 1 l
  end.

Definition keep_max (x mp : float) : bool := (x <=? mp)%float.
Definition keep_min (x mp : float) : bool := (mp <=? x)%float.

(** [a.argmax()]: index of the first maximal element. *)
Definition argmax (a : list float) : result nat :=
  match a with
  | [] => Raise ValueError
  | x :: a' => Ok (scan keep_max x 0 1 a')
  end.

(** [a.argmin()]: index of the first minimal element. *)
Definition argmin (a : list float) : result nat :=
  match a with
  | [] => Raise ValueError
  | x :: a' => Ok (scan keep_min x 0 1 a')
  end.

(** Column [j] of a matrix given by its rows. *)
Definition column (m : list (list float)) (j : nat) : list float :=
  map (fun r => nth j r 0%float) m.

(** [np.transpose(m)] for a sequence of rows: the rows must have one
    length (a ragged sequence is not an array).  No rows give the empty
    one-dimensional array, which is its own transpose. *)
Definition transpose (m : list (list float)) : result (list (list float)) :=
  match m with
  | [] => Ok []
  | r :: _ =>
      if forallb (fun r' => length r' =? length r) m
      then Ok (map (column m) (seq 0 (length r)))
      else Raise ValueError
  end.

(** [np.diag(m)] of a matrix: entries [m[i][i]] from row [i] on, as
    long as both the row and the column exist. *)
Fixpoint diag_from (i : nat) (m : list (list float)) : list float :=
  match m with
  | [] => []
  | r :: m' =>
      match nth_error r i with
      | Some v => v :: diag_from (S i) m'
      | None => []
      end
  end.

Definition diag (m : list (list float)) : list float := diag_from 0 m.

End np.

(* ================================================================== *)
(** * The object, the standard output and the method monad              *)
(* ================================================================== *)

(** The attributes set by [__init__]. *)
Record Plane_nd : Type := {
  ivals : list (list float);
  dvals : list float;
  dm : nat;
  npars : nat;
  npts : nat;
  ndf : Z
}.

(** Values stored in the solver's diagnostics dictionary. *)
Inductive pyval : Type :=
| PyInt (z : Z)
| PyVec (v : list float)
| PyIntVec (v : list Z)
| PyMat (m : list (list float)).

(** The full output of [leastsq]: the optimum, the covariance proxy
    ([None] when it is singular), the diagnostics, a message and a
    status code. *)
Record lsq_output : Type := {
  popt : list float;
  pcov : option (list (list float));
  idict : list (string * pyval);
  mesg : string;
  ierr : Z
}.

(** One call of [print]. *)
Inductive printed : Type :=
| PrintParams (p : list float)
| PrintErrors (e : list (option float))
| PrintItem (k : string) (v : pyval)
| PrintMesg (s : string)
| PrintIerr (z : Z).

Record world : Type := {
  self : Plane_nd;
  stdout : list printed
}.

Definition M (A : Type) : Type := world -> result A * world.

Definition ret {A : Type} (a : A) : M A := fun w => (Ok a, w).

Definition bind {A B : Type} (m : M A) (k : A -> M B) : M B :=
  fun w => match m w with
           | (Ok a, w') => k a w'
           | (Raise e, w') => (Raise e, w')
           end.

Notation "x <- m ;; k" := (bind m (fun x => k))
  (at level 61, m at next level, right associativity).
Notation "m ;;; k" := (bind m (fun _ => k))
  (at level 61, right associativity).

(** Read an attribute of [self]. *)
Definition attr {A : Type} (f : Plane_nd -> A) : M A :=
  fun w => (Ok (f (self w)), w).

(** Run a numpy operation. *)
Definition lift {A : Type} (r : result A) : M A := fun w => (r, w).

Definition print (p : printed) : M unit :=
  fun w => (Ok tt, {| self := self w; stdout := stdout w ++ [p] |}).

(** A bound method handed to a callee: each call runs the method from
    the state at the time the method was bound.  The methods handed out
    this way only read the object (see [objfun_reads], [objjac_reads]). *)
Definition bound {A B : Type} (m : A -> M B) : M (A -> result B) :=
  fun w => (Ok (fun a => fst (m a w)), w).

(** A list comprehension whose element expression can raise. *)
Fixpoint mapM {A B : Type} (f : A -> M B) (l : list A) : M (list B) :=
  match l with
  | [] => ret []
  | a :: l' => b <- f a ;; bs <- mapM f l' ;; ret (b :: bs)
  end.

(** A [for] loop that updates one variable. *)
Fixpoint foldM {A B : Type} (f : B -> A -> M B) (l : list A) (b : B) : M B :=
  match l with
  | [] => ret b
  | a :: l' => b' <- f b a ;; foldM f l' b'
  end.

(** A [for] loop run for its effects only. *)
Fixpoint forM_ {A : Type} (f : A -> M unit) (l : list A) : M unit :=
  match l with
  | [] => ret tt
  | a :: l' => f a ;;; forM_ f l'
  end.

(* ================================================================== *)
(** * The class                                                         *)
(* ================================================================== *)

(** [__init__(self, ivals, dvals, dm)] *)
Definition __init__ (ivals : list (list float)) (dvals : list float) (dm : nat)
  : Plane_nd :=
  {| ivals := ivals;
     dvals := dvals;
     dm := dm;
     npars := dm + 1;
     npts := length dvals;
     ndf := Z.of_nat (length dvals) - Z.of_nat (dm + 1) |}.

(** The world right after construction, with [out] already printed. *)
Definition fresh (ivals : list (list float)) (dvals : list float) (dm : nat)
           (out : list printed) : world :=
  {| self := __init__ ivals dvals dm; stdout := out |}.

Section Methods.

(** numpy's sum of all the elements of an array.  The order in which
    numpy adds the elements is its own, so the reduction is a
    parameter of the development. *)
Variable np_sum : list float -> float.

(** scipy's [leastsq(func, x0, Dfun=..., full_output=True, xtol=...,
    ftol=...)]: the external solver.  It calls [func] and [Dfun], and
    returns its full output or raises. *)
Variable leastsq :
  (list float -> result (list float)) ->
  list float ->
  (list float -> result (list (list float))) ->
  float -> float ->
  result lsq_output.

(** [np.average(a)]: the sum over the number of elements. *)
Definition np_average (a : list float) : float :=
  (np_sum a / float_of_nat (length a))%float.

Definition zcoord (x : list float) : M (list float) :=
  n <- attr npars ;;
  let z := np.empty n in
  d <- attr dm ;;
  n <- attr npars ;;
  z <- lift (np.set_slice z 1 n (np.slice x 0 d)) ;;
  z <- lift (np.set_item z 0 1%float) ;;
  ret z.

(** [fplane(self, x, *cpars)].  The starred parameter collects the
    positional arguments after [x]; [objfun], the only caller, passes
    the parameter vector as one argument, so [np.array(cpars)] is the
    matrix whose only row is [pars]. *)
Definition fplane (x : list float) (pars : list float) : M float :=
  let cpars := pars in
  z <- zcoord x ;;
  zc <- lift (np.broadcast_mul z cpars) ;;
  ret (np_sum zc).

Definition objfun (pars : list float) : M (list float) :=
  dv <- attr dvals ;;
  iv <- attr ivals ;;
  mapM (fun p : float * list float =>
          f <- fplane (snd p) pars ;; ret (fst p - f)%float)
       (combine dv iv).

Definition objjac (pars : list float) : M (list (list float)) :=
  iv <- attr ivals ;;
  mapM (fun x => z <- zcoord x ;; ret (map PrimFloat.opp z)) iv.

(** The body of the loop over the axes in [dolsq]. *)
Definition slope_estimate (ivt : list (list float)) (xini : list float)
           (i : nat) : M (list float) :=
  ivti <- lift (np.get_item ivt (i - 1)) ;;
  iv_max_i <- lift (np.argmax ivti) ;;
  iv_max <- lift (np.get_item ivti iv_max_i) ;;
  dv <- attr dvals ;;
  dv_max <- lift (np.get_item dv iv_max_i) ;;
  iv_min_i <- lift (np.argmin ivti) ;;
  iv_min <- lift (np.get_item ivti iv_min_i) ;;
  dv <- attr dvals ;;
  dv_min <- lift (np.get_item dv iv_min_i) ;;
  d <- attr dm ;;
  lift (np.set_item xini i
          ((dv_max - dv_min) / (iv_max - iv_min) / float_of_nat d)%float).

(** The [else] branch of [dolsq]: the guess built from the samples. *)
Definition heuristic_guess : M (list float) :=
  n <- attr npars ;;
  let xini := np.zeros n in
  dv <- attr dvals ;;
  xini <- lift (np.set_item xini 0 (np_average dv)) ;;
  dv <- attr dvals ;;
  x0 <- lift (np.get_item xini 0) ;;
  iave <- lift (np.argmin (map (fun d => abs (d - x0)%float) dv)) ;;
  iv <- attr ivals ;;
  ivt <- lift (np.transpose iv) ;;
  n <- attr npars ;;
  foldM (slope_estimate ivt) (seq 1 (n - 1)) xini.

(** The first statement of [dolsq].  [guess] is [None] when the
    argument is omitted; the parameter then takes its default, the
    empty list.  [list(guess)] is true when the guess has an element,
    and [np.copy(guess)] is then the guess itself. *)
Definition initial_guess (guess : option (list float)) : M (list float) :=
  let guess := match guess with Some g => g | None => [] end in
  match guess with
  | _ :: _ => let xini := guess in ret xini
  | [] => heuristic_guess
  end.

(** The computation of [perr] in [dolsq]. *)
Definition parameter_errors (pcov : option (list (list float)))
           (resd : list float) : M (list (option float)) :=
  nd <- attr ndf ;;
  match (0 <? nd)%Z, pcov with
  | true, Some pcov =>
      nd <- attr ndf ;;
      let resd_var :=
        (np_sum (map (fun r => r * r)%float resd) / float_of_Z nd)%float in
      let pcovariance := map (map (fun v => v * resd_var)%float) pcov in
      let perr := map sqrt (np.diag pcovariance) in
      ret (map Some perr)
  | _, _ =>
      n <- attr npars ;;
      ret (repeat None n)
  end.

(** The call of the solver in [dolsq], with the bound methods
    [self.objfun] and [self.objjac] and the two tolerances. *)
Definition call_solver (xini : list float) : M lsq_output :=
  func <- bound objfun ;;
  Dfun <- bound objjac ;;
  lift (leastsq func xini Dfun 1e-20%float 1e-16%float).

(** The body of [if do_print:]. *)
Definition report (out : lsq_output) (perr : list (option float)) : M unit :=
  print (PrintParams (popt out)) ;;;
  print (PrintErrors perr) ;;;
  forM_ (fun kv => print (PrintItem (fst kv) (snd kv))) (idict out) ;;;
  print (PrintMesg (mesg out)) ;;;
  print (PrintIerr (ierr out)).

(** The statements of [dolsq] from the call of the solver on. *)
Definition solve_from (xini : list float) (do_print : bool)
  : M (list float * list (option float)) :=
  out <- call_solver xini ;;
  resd <- objfun (popt out) ;;
  perr <- parameter_errors (pcov out) resd ;;
  (if do_print then report out perr else ret tt) ;;;
  ret (popt out, perr).

Definition dolsq (guess : option (list float)) (do_print : bool)
  : M (list float * list (option float)) :=
  xini <- initial_guess guess ;;
  solve_from xini do_print.

End Methods.

(* ================================================================== *)
(** * Vocabulary of the statements                                      *)
(* ================================================================== *)

(** A computation that leaves the world as it found it. *)
Definition reads {A : Type} (m : M A) : Prop :=
  forall w, snd (m w) = w.

(** A computation that leaves the object as it found it and whose
    result is a function of the object alone. *)
Definition depends_on_self {A : Type} (m : M A) : Prop :=
  (forall w, self (snd (m w)) = self w) /\
  (forall w w', self w = self w' -> fst (m w) = fst (m w')).

(** A sample set of dimension [D]: every independent vector has [D]
    coordinates. *)
Definition rows_of_dim (D : nat) (iv : list (list float)) : Prop :=
  Forall (fun x => length x = D) iv.

(** [j] is an index of [col] whose element is extremal for [le]: every
    element [u] of [col] satisfies [le u v]. *)
Definition attains (le : float -> float -> bool) (col : list float) (j : nat)
  : Prop :=
  exists v, nth_error col j = Some v /\
            forall k u, nth_error col k = Some u -> le u v = true.

(** [j] is the first such index. *)
Definition first_attains (le : float -> float -> bool) (col : list float)
           (j : nat) : Prop :=
  attains le col j /\ forall k, k < j -> ~ attains le col k.

(** The first index at which [col] takes its maximum. *)
Definition first_max (col : list float) (j : nat) : Prop :=
  first_attains (fun u v => (u <=? v)%float) col j.

(** The first index at which [col] takes its minimum. *)
Definition first_min (col : list float) (j : nat) : Prop :=
  first_attains (fun u v => (v <=? u)%float) col j.

Definition no_nan (l : list float) : Prop :=
  Forall (fun v => is_nan v = false) l.

(** The slope estimate of one axis, as a relation between the column of
    the axis, the dependent values, the dimension and the estimate. *)
Definition slope_at (col dv : list float) (D : nat) (v : float) : Prop :=
  exists jmax jmin vmax vmin dmax dmin,
    first_max col jmax /\ first_min col jmin /\
    nth_error col jmax = Some vmax /\ nth_error col jmin = Some vmin /\
    nth_error dv jmax = Some dmax /\ nth_error dv jmin = Some dmin /\
    v = ((dmax - dmin) / (vmax - vmin) / float_of_nat D)%float.

(** The slope estimate of one axis as a function of the column of the
    axis, the dependent values and the dimension: the indices are the
    ones the scans of [argmax] and [argmin] return. *)
Definition slope_value (col dv : list float) (D : nat) : float :=
  let jmax := np.scan_index np.keep_max col in
  let jmin := np.scan_index np.keep_min col in
  ((nth jmax dv 0 - nth jmin dv 0) / (nth jmax col 0 - nth jmin col 0)
   / float_of_nat D)%float.


(** What [dolsq] prints when [do_print] is set. *)
Definition report_lines (o : lsq_output) (perr : list (option float))
  : list printed :=
  [PrintParams (popt o); PrintErrors perr]
    ++ map (fun kv => PrintItem (fst kv) (snd kv)) (idict o)
    ++ [PrintMesg (mesg o); PrintIerr (ierr o)].


(* ================================================================== *)
(** * Concrete solvers and sample sets                                  *)
(* ================================================================== *)

(** The sum taken from left to right, starting from zero. *)
Definition sum_in_order (l : list float) : float :=
  fold_left PrimFloat.add l 0%float.

(** A solver that evaluates the residuals and the Jacobian once at the
    initial point and then reports [answer x0]. *)
Definition probe_leastsq (answer : list float -> lsq_output)
           (func : list float -> result (list float))
           (x0 : list float)
           (Dfun : list float -> result (list (list float)))
           (xtol ftol : float) : result lsq_output :=
  match func x0 with
  | Raise e => Raise e
  | Ok _ =>
      match Dfun x0 with
      | Raise e => Raise e
      | Ok _ => Ok (answer x0)
      end
  end.

(** The answer "the initial point, singular covariance". *)
Definition stay (x0 : list float) : lsq_output :=
  {| popt := x0; pcov := None; idict := [("nfev"%string, PyInt 1)];
     mesg := "stopped"%string; ierr := 1 |}.

(** Four samples of a line, their least-squares fit and the inverse of
    the product of the Jacobian's transpose with the Jacobian. *)
Definition line_iv : list (list float) :=
  [[(-1)%float]; [1%float]; [(-1)%float]; [1%float]].
Definition line_dv : list float := [3%float; 7%float; 4%float; 8%float].
Definition line_fit (x0 : list float) : lsq_output :=
  {| popt := [5.5%float; 2%float];
     pcov := Some [[0.25%float; 0%float]; [0%float; 0.25%float]];
     idict := [("nfev"%string, PyInt 2)];
     mesg := "converged"%string; ierr := 1 |}.

(** Three samples in two dimensions whose second coordinate is constant. *)
Definition flat_iv : list (list float) :=
  [[0%float; 3%float]; [1%float; 3%float]; [2%float; 3%float]].
Definition flat_dv : list float := [5%float; 7%float; 9%float].

(** Three samples of a line in one dimension. *)
Definition ramp_iv : list (list float) := [[0%float]; [1%float]; [2%float]].
Definition ramp_dv : list float := [5%float; 7%float; 9%float].


Definition line_world : world := fresh line_iv line_dv 1 [].
Definition flat_world : world := fresh flat_iv flat_dv 2 [].
Definition ramp_world : world := fresh ramp_iv ramp_dv 1 [].

(** A solver that rejects its input. *)
Definition failing_leastsq
           (func : list float -> result (list float))
           (x0 : list float)
           (Dfun : list float -> result (list (list float)))
           (xtol ftol : float) : result lsq_output :=
  Raise TypeError.


(** Two samples in one dimension: as many samples as parameters. *)
Definition exact_iv : list (list float) := [[0%float]; [1%float]].
Definition exact_dv : list float := [5%float; 7%float].

(** A solver that makes the checks of [checks_input] and then reports
    [answer x0]. *)
Definition checked_leastsq (answer : list float -> lsq_output)
           (func : list float -> result (list float))
           (x0 : list float)
           (Dfun : list float -> result (list (list float)))
           (xtol ftol : float) : result lsq_output :=
  match func x0 with
  | Raise e => Raise e
  | Ok r =>
      if length r <? length x0 then Raise TypeError
      else match Dfun x0 with
           | Raise e => Raise e
           | Ok J =>
               if forallb (fun row => length row =? length x0) J
               then Ok (answer x0)
               else if length x0 =? 1 then Raise ValueError
                    else Raise TypeError
           end
  end.

(** The fit of the two samples [exact_iv], [exact_dv] and the inverse
    of the product of the Jacobian's transpose with the Jacobian. *)
Definition exact_fit (x0 : list float) : lsq_output :=
  {| popt := [5%float; 2%float];
     pcov := Some [[1%float; (-1)%float]; [(-1)%float; 2%float]];
     idict := [("nfev"%string, PyInt 2)];
     mesg := "converged"%string; ierr := 1 |}.

(* ================================================================== *)
(** * Order facts on binary64 numbers                                   *)
(* ================================================================== *)

Module FloatOrder.

Import SpecFloat.
Local Open Scope float_scope.

Lemma SFleb_refl (a : spec_float) : a <> S754_nan -> SFleb a a = true.
Proof.
  unfold SFleb, SFcompare.
  destruct a as [s|s| |s m e]; intros H; try reflexivity; try congruence.
  - destruct s; reflexivity.
  - rewrite Z.compare_refl.
    change (Pos.compare_cont Eq m m) with (Pos.compare m m).
    rewrite Pos.compare_refl. destruct s; reflexivity.
Qed.

Ltac cmp_cases :=
  repeat match goal with
    | H : context [Z.compare ?x ?y] |- _ =>
        destruct (Z.compare_spec x y); subst
    | |- context [Z.compare ?x ?y] =>
        destruct (Z.compare_spec x y); subst
    | H : context [Pos.compare_cont Eq ?x ?y] |- _ =>
        change (Pos.compare_cont Eq x y) with (Pos.compare x y) in H;
        destruct (Pos.compare_spec x y); subst
    | |- context [Pos.compare_cont Eq ?x ?y] =>
        change (Pos.compare_cont Eq x y) with (Pos.compare x y);
        destruct (Pos.compare_spec x y); subst
    end.

Lemma SFleb_total (a b : spec_float) :
  a <> S754_nan -> b <> S754_nan -> SFleb a b = false -> SFleb b a = true.
Proof.
  unfold SFleb, SFcompare.
  destruct a as [sa|sa| |sa ma ea], b as [sb|sb| |sb mb eb];
    intros Ha Hb; try congruence;
    try (destruct sa); try (destruct sb); simpl;
    try reflexivity; try discriminate;
    cmp_cases; simpl; intros; try reflexivity; try discriminate; lia.
Qed.

Lemma SFleb_trans (a b c : spec_float) :
  SFleb a b = true -> SFleb b c = true -> SFleb a c = true.
Proof.
  unfold SFleb, SFcompare.
  destruct a as [sa|sa| |sa ma ea], b as [sb|sb| |sb mb eb],
           c as [sc|sc| |sc mc ec];
    try discriminate; try reflexivity;
    try (destruct sa); try (destruct sb); try (destruct sc); simpl;
    try reflexivity; try discriminate;
    intros H1 H2; cmp_cases; simpl in *;
    try reflexivity; try discriminate; lia.
Qed.

Lemma is_nan_spec (x : float) : is_nan x = false <-> Prim2SF x <> S754_nan.
Proof.
  unfold is_nan. rewrite eqb_spec. unfold SFeqb.
  split.
  - intros H E. rewrite E in H. discriminate.
  - intros H. destruct (Prim2SF x) as [s|s| |s m e] eqn:E;
      try congruence; try (destruct s; reflexivity).
    unfold SFcompare. rewrite Z.compare_refl.
    change (Pos.compare_cont Eq m m) with (Pos.compare m m).
    rewrite Pos.compare_refl. destruct s; reflexivity.
Qed.

Lemma leb_refl (x : float) : is_nan x = false -> (x <=? x) = true.
Proof. rewrite is_nan_spec, leb_spec. apply SFleb_refl. Qed.

Lemma leb_total (x y : float) :
  is_nan x = false -> is_nan y = false ->
  (x <=? y) = false -> (y <=? x) = true.
Proof. rewrite !is_nan_spec, !leb_spec. apply SFleb_total. Qed.

Lemma leb_trans (x y z : float) :
  (x <=? y) = true -> (y <=? z) = true -> (x <=? z) = true.
Proof. rewrite !leb_spec. apply SFleb_trans. Qed.

End FloatOrder.

(* ================================================================== *)
(** * Running the monad                                                 *)
(* ================================================================== *)

Ltac run := unfold bind, attr, lift, ret; cbn [fst snd].

Lemma reads_ret {A : Type} (a : A) : reads (ret a).
Proof. intros w. reflexivity. Qed.

Lemma reads_attr {A : Type} (f : Plane_nd -> A) : reads (attr f).
Proof. intros w. reflexivity. Qed.

Lemma reads_lift {A : Type} (r : result A) : reads (lift r).
Proof. intros w. reflexivity. Qed.

Lemma reads_bound {A B : Type} (m : A -> M B) : reads (bound m).
Proof. intros w. reflexivity. Qed.

Lemma reads_bind {A B : Type} (m : M A) (k : A -> M B) :
  reads m -> (forall a, reads (k a)) -> reads (bind m k).
Proof.
  intros Hm Hk w. unfold bind. specialize (Hm w).
  destruct (m w) as [[a|e] w1]; cbn in *; subst.
  - apply Hk.
  - reflexivity.
Qed.

Lemma reads_mapM {A B : Type} (f : A -> M B) (l : list A) :
  (forall a, reads (f a)) -> reads (mapM f l).
Proof.
  intros Hf. induction l as [|a l IH]; cbn [mapM].
  - apply reads_ret.
  - apply reads_bind; [apply Hf|]. intros b.
    unfold reads, bind. intros w. specialize (IH w).
    destruct (mapM f l w) as [[bs|e] w1]; cbn in *; subst; reflexivity.
Qed.

Lemma reads_foldM {A B : Type} (f : B -> A -> M B) (l : list A) (b : B) :
  (forall b a, reads (f b a)) -> reads (foldM f l b).
Proof.
  intros Hf. revert b. induction l as [|a l IH]; intros b; cbn [foldM].
  - apply reads_ret.
  - apply reads_bind; [apply Hf|]. intros b'. apply IH.
Qed.

Lemma reads_depends {A : Type} (m : M A) :
  reads m ->
  (forall w w', self w = self w' -> fst (m w) = fst (m w')) ->
  depends_on_self m.
Proof.
  intros Hr Hd. split; [|exact Hd]. intros w. rewrite Hr. reflexivity.
Qed.

Lemma depends_ret {A : Type} (a : A) : depends_on_self (ret a).
Proof. split; intros; reflexivity. Qed.

Lemma depends_attr {A : Type} (f : Plane_nd -> A) : depends_on_self (attr f).
Proof.
  split; [reflexivity|]. intros w w' E. unfold attr; cbn. now rewrite E.
Qed.

Lemma depends_lift {A : Type} (r : result A) : depends_on_self (lift r).
Proof. split; intros; reflexivity. Qed.

Lemma depends_bind {A B : Type} (m : M A) (k : A -> M B) :
  depends_on_self m -> (forall a, depends_on_self (k a)) ->
  depends_on_self (bind m k).
Proof.
  intros [Hm1 Hm2] Hk. split.
  - intros w. unfold bind. specialize (Hm1 w).
    destruct (m w) as [[a|e] w1]; cbn in *; [|exact Hm1].
    destruct (Hk a) as [Hk1 _]. rewrite Hk1. exact Hm1.
  - intros w w' E. unfold bind.
    pose proof (Hm2 w w' E) as E1.
    pose proof (Hm1 w) as F1. pose proof (Hm1 w') as F2.
    destruct (m w) as [r1 w1], (m w') as [r2 w2]; cbn in *; subst r2.
    destruct r1 as [a|e]; [|reflexivity].
    destruct (Hk a) as [_ Hk2]. apply Hk2. congruence.
Qed.

Lemma depends_bound {A B : Type} (m : A -> M B) :
  (forall a, depends_on_self (m a)) -> depends_on_self (bound m).
Proof.
  intros Hm. split; [reflexivity|].
  intros w w' E. unfold bound; cbn. f_equal.
  apply functional_extensionality. intros a.
  destruct (Hm a) as [_ H]. now apply H.
Qed.

Lemma depends_mapM {A B : Type} (f : A -> M B) (l : list A) :
  (forall a, depends_on_self (f a)) -> depends_on_self (mapM f l).
Proof.
  intros Hf. induction l as [|a l IH]; cbn [mapM].
  - split; intros; reflexivity.
  - apply depends_bind; [apply Hf|]. intros b.
    destruct IH as [I1 I2]. split.
    + intros w. unfold bind. specialize (I1 w).
      destruct (mapM f l w) as [[bs|e] w1]; cbn in *; exact I1.
    + intros w w' E. unfold bind. specialize (I2 w w' E).
      destruct (mapM f l w) as [r1 w1], (mapM f l w') as [r2 w2];
        cbn in *; subst r2. destruct r1; reflexivity.
Qed.

Lemma depends_foldM {A B : Type} (f : B -> A -> M B) (l : list A) (b : B) :
  (forall b a, depends_on_self (f b a)) -> depends_on_self (foldM f l b).
Proof.
  intros Hf. revert b. induction l as [|a l IH]; intros b; cbn [foldM].
  - split; intros; reflexivity.
  - apply depends_bind; [apply Hf|]. intros b'. apply IH.
Qed.

Lemma depends_print (p : printed) : depends_on_self (print p).
Proof. split; intros; reflexivity. Qed.

Lemma depends_forM_ {A : Type} (f : A -> M unit) (l : list A) :
  (forall a, depends_on_self (f a)) -> depends_on_self (forM_ f l).
Proof.
  intros Hf. induction l as [|a l IH]; cbn [forM_].
  - split; intros; reflexivity.
  - apply depends_bind; [apply Hf|]. intros _. exact IH.
Qed.

(* ================================================================== *)
(** * The padded coordinate vector                                      *)
(* ================================================================== *)

Lemma set_slice_fill (n : nat) (src : list float) :
  length src = n ->
  np.set_slice (np.empty (n + 1)) 1 (n + 1) src = Ok (0%float :: src).
Proof.
  intros H. unfold np.set_slice, np.slice, np.empty.
  replace (n + 1) with (S n) by lia. cbn [repeat skipn firstn].
  replace (S n - 1) with n by lia.
  rewrite firstn_all2 by (rewrite repeat_length; lia).
  rewrite repeat_length, H, Nat.eqb_refl.
  rewrite skipn_all2 by (cbn; rewrite repeat_length; lia).
  now rewrite app_nil_r.
Qed.

(** On an object whose [npars] is [dm + 1], the padded vector of a
    [dm]-vector is the vector with 1.0 in front. *)
Lemma zcoord_run (w : world) (x : list float) :
  npars (self w) = dm (self w) + 1 ->
  length x = dm (self w) ->
  zcoord x w = (Ok (1%float :: x), w).
Proof.
  intros Hn Hx. unfold zcoord. run. rewrite Hn.
  unfold np.slice at 1. rewrite Nat.sub_0_r. cbn [skipn].
  rewrite firstn_all2 by lia.
  rewrite set_slice_fill by exact Hx. reflexivity.
Qed.

Lemma zcoord_reads (x : list float) : reads (zcoord x).
Proof.
  unfold zcoord.
  repeat (first [ apply reads_bind; [|intros ?]
                | apply reads_attr | apply reads_lift | apply reads_ret ]).
Qed.

(** C5: for every vector [x] of length [D], [zcoord x] returns a vector
    of length [D + 1] whose entry 0 is 1.0 and whose entries 1..D are
    the entries 0..D-1 of [x]. *)
Theorem zcoord_padded (iv : list (list float)) (dv : list float) (D : nat)
        (out : list printed) (x : list float) :
  length x = D ->
  exists z,
    zcoord x (fresh iv dv D out) = (Ok z, fresh iv dv D out) /\
    length z = D + 1 /\
    nth_error z 0 = Some 1%float /\
    forall i, i < D -> nth_error z (S i) = nth_error x i.
Proof.
  intros Hx. exists (1%float :: x). split; [|split; [|split]].
  - apply zcoord_run; [reflexivity | exact Hx].
  - cbn. lia.
  - reflexivity.
  - intros i _. reflexivity.
Qed.

(* ================================================================== *)
(** * Residuals and Jacobian                                            *)
(* ================================================================== *)

Lemma mapM_run {A B : Type} (f : A -> M B) (g : A -> B) (l : list A)
      (w : world) :
  (forall a, In a l -> f a w = (Ok (g a), w)) ->
  mapM f l w = (Ok (map g l), w).
Proof.
  induction l as [|a l IH]; intros H; cbn [mapM map].
  - reflexivity.
  - unfold bind at 1. rewrite (H a (or_introl eq_refl)).
    unfold bind at 1. rewrite IH by (intros; apply H; now right).
    reflexivity.
Qed.

Lemma mapM_raises {A B : Type} (f : A -> M B) (a : A) (l : list A)
      (w : world) (e : exn) :
  f a w = (Raise e, w) -> mapM f (a :: l) w = (Raise e, w).
Proof. intros H. cbn [mapM]. unfold bind at 1. now rewrite H. Qed.

Section ModelFacts.

Variable np_sum : list float -> float.

Lemma fplane_run (w : world) (x pars : list float) :
  npars (self w) = dm (self w) + 1 ->
  length x = dm (self w) ->
  length pars = dm (self w) + 1 ->
  fplane np_sum x pars w = (Ok (np_sum (np.mul (1%float :: x) pars)), w).
Proof.
  intros Hn Hx Hp. unfold fplane. unfold bind at 1.
  rewrite zcoord_run by assumption. run.
  unfold np.broadcast_mul.
  replace (length (1%float :: x) =? length pars) with true
    by (symmetry; apply Nat.eqb_eq; cbn; lia).
  reflexivity.
Qed.

Lemma fplane_reads (x pars : list float) : reads (fplane np_sum x pars).
Proof.
  unfold fplane.
  repeat (first [ apply zcoord_reads | apply reads_bind; [|intros ?]
                | apply reads_attr | apply reads_lift | apply reads_ret ]).
Qed.

Lemma objfun_reads (pars : list float) : reads (objfun np_sum pars).
Proof.
  unfold objfun.
  repeat (first [ apply reads_mapM; intros ?
                | apply fplane_reads
                | apply reads_bind; [|intros ?]
                | apply reads_attr | apply reads_lift | apply reads_ret ]).
Qed.

Lemma objjac_reads (pars : list float) : reads (objjac pars).
Proof.
  unfold objjac.
  repeat (first [ apply reads_mapM; intros ?
                | apply zcoord_reads
                | apply reads_bind; [|intros ?]
                | apply reads_attr | apply reads_lift | apply reads_ret ]).
Qed.

Lemma objfun_run (w : world) (pars : list float) :
  npars (self w) = dm (self w) + 1 ->
  rows_of_dim (dm (self w)) (ivals (self w)) ->
  length pars = dm (self w) + 1 ->
  objfun np_sum pars w =
    (Ok (map (fun p : float * list float =>
                (fst p - np_sum (np.mul (1%float :: snd p) pars))%float)
             (combine (dvals (self w)) (ivals (self w)))), w).
Proof.
  intros Hn Hr Hp. unfold objfun. run.
  apply mapM_run. intros [d x] Hin. cbn [fst snd].
  cbv beta. rewrite fplane_run; try assumption.
  - reflexivity.
  - apply in_combine_r in Hin.
    unfold rows_of_dim in Hr. rewrite Forall_forall in Hr. now apply Hr.
Qed.

Lemma objjac_run (w : world) (pars : list float) :
  npars (self w) = dm (self w) + 1 ->
  rows_of_dim (dm (self w)) (ivals (self w)) ->
  objjac pars w =
    (Ok (map (fun x => map PrimFloat.opp (1%float :: x)) (ivals (self w))),
     w).
Proof.
  intros Hn Hr. unfold objjac. run.
  apply mapM_run. intros x Hin.
  cbv beta. rewrite zcoord_run; try assumption.
  - reflexivity.
  - unfold rows_of_dim in Hr. rewrite Forall_forall in Hr. now apply Hr.
Qed.

(** C3: the residual vector has one entry per sample, in the order of
    the samples, and entry [i] is the dependent value of sample [i]
    minus the dot product of its padded coordinate vector with the
    parameters. *)
Theorem objfun_residuals (iv : list (list float)) (dv : list float)
        (D : nat) (out : list printed) (pars : list float) :
  rows_of_dim D iv ->
  length iv = length dv ->
  length pars = D + 1 ->
  exists r,
    objfun np_sum pars (fresh iv dv D out) = (Ok r, fresh iv dv D out) /\
    length r = length dv /\
    forall i d x,
      nth_error dv i = Some d ->
      nth_error iv i = Some x ->
      exists z f,
        zcoord x (fresh iv dv D out) = (Ok z, fresh iv dv D out) /\
        fplane np_sum x pars (fresh iv dv D out)
          = (Ok f, fresh iv dv D out) /\
        f = np_sum (np.mul z pars) /\
        nth_error r i = Some (d - f)%float.
Proof.
  intros Hr Hl Hp.
  eexists. split; [|split].
  - apply objfun_run; [reflexivity | exact Hr | exact Hp].
  - cbn [fresh self dvals ivals __init__].
    rewrite length_map, length_combine. lia.
  - intros i d x Hd Hx.
    assert (Lx : length x = D).
    { unfold rows_of_dim in Hr. rewrite Forall_forall in Hr.
      apply Hr. eapply nth_error_In; eassumption. }
    exists (1%float :: x), (np_sum (np.mul (1%float :: x) pars)).
    split; [|split; [|split]].
    + apply zcoord_run; [reflexivity | exact Lx].
    + apply fplane_run; [reflexivity | exact Lx | exact Hp].
    + reflexivity.
    + cbn [fresh self dvals ivals __init__].
      rewrite nth_error_map.
      assert (E : nth_error (combine dv iv) i = Some (d, x)).
      { clear -Hd Hx. revert iv i Hd Hx.
        induction dv as [|d0 dv IH]; intros [|x0 iv] [|i] Hd Hx;
          cbn in *; try discriminate; try congruence.
        now apply IH. }
      rewrite E. reflexivity.
Qed.

(** C4: the Jacobian has one row per sample and [D + 1] columns, row
    [i] is the negated padded coordinate vector of sample [i], and the
    matrix does not depend on the parameter argument. *)
Theorem objjac_rows (iv : list (list float)) (dv : list float)
        (D : nat) (out : list printed) :
  (forall (w : world) (p1 p2 : list float), objjac p1 w = objjac p2 w) /\
  (rows_of_dim D iv ->
   forall pars, exists J,
     objjac pars (fresh iv dv D out) = (Ok J, fresh iv dv D out) /\
     length J = length iv /\
     Forall (fun row => length row = D + 1) J /\
     forall i x,
       nth_error iv i = Some x ->
       exists z,
         zcoord x (fresh iv dv D out) = (Ok z, fresh iv dv D out) /\
         nth_error J i = Some (map PrimFloat.opp z)).
Proof.
  split; [reflexivity|].
  intros Hr pars. eexists. split; [|split; [|split]].
  - apply objjac_run; [reflexivity | exact Hr].
  - cbn [fresh self ivals __init__]. apply length_map.
  - cbn [fresh self ivals __init__]. rewrite Forall_map.
    unfold rows_of_dim in Hr. eapply Forall_impl; [|exact Hr].
    cbn. intros x Hx. rewrite length_map. cbn. lia.
  - intros i x Hx. exists (1%float :: x). split.
    + apply zcoord_run; [reflexivity|]. cbn.
      unfold rows_of_dim in Hr. rewrite Forall_forall in Hr.
      apply Hr. eapply nth_error_In; eassumption.
    + cbn [fresh self ivals __init__]. rewrite nth_error_map, Hx.
      reflexivity.
Qed.

End ModelFacts.

(* ================================================================== *)
(** * First extremum of a column                                        *)
(* ================================================================== *)

Section Scan.

Variable keep : float -> float -> bool.
Hypothesis keep_refl : forall x, is_nan x = false -> keep x x = true.
Hypothesis keep_total :
  forall x y, is_nan x = false -> is_nan y = false ->
              keep x y = false -> keep y x = true.
Hypothesis keep_trans :
  forall x y z, keep x y = true -> keep y z = true -> keep x z = true.

Lemma scan_bound (l : list float) :
  forall mp best i, best < i -> np.scan keep mp best i l < i + length l.
Proof.
  induction l as [|x l IH]; intros mp best i Hb; cbn [np.scan length].
  - destruct (is_nan mp); lia.
  - destruct (is_nan mp); [lia|].
    destruct (keep x mp).
    + specialize (IH mp best (S i)). lia.
    + specialize (IH x i (S i)). lia.
Qed.

Lemma scan_first (l : list float) :
  forall (p : list float) (mp : float) (best : nat),
    no_nan (p ++ l) ->
    nth_error p best = Some mp ->
    (forall k u, nth_error p k = Some u -> keep u mp = true) ->
    (forall k u, k < best -> nth_error p k = Some u -> keep mp u = false) ->
    first_attains keep (p ++ l) (np.scan keep mp best (length p) l).
Proof.
  induction l as [|x l IH]; intros p mp best Hnn Hb Hall Hbefore.
  - assert (Hmp : is_nan mp = false).
    { unfold no_nan in Hnn. rewrite Forall_forall in Hnn. apply Hnn.
      rewrite app_nil_r. eapply nth_error_In; eassumption. }
    cbn [np.scan]. rewrite Hmp, app_nil_r. split.
    + exists mp. split; assumption.
    + intros k Hk [u [Hu Hmax]].
      specialize (Hmax best mp Hb).
      rewrite (Hbefore k u Hk Hu) in Hmax. discriminate.
  - assert (Hmp : is_nan mp = false).
    { unfold no_nan in Hnn. rewrite Forall_forall in Hnn. apply Hnn.
      apply in_or_app. left. eapply nth_error_In; eassumption. }
    assert (Hx : is_nan x = false).
    { unfold no_nan in Hnn. rewrite Forall_forall in Hnn. apply Hnn.
      apply in_or_app. right. now left. }
    assert (Hbl : best < length p).
    { apply nth_error_Some. congruence. }
    cbn [np.scan]. rewrite Hmp.
    replace (p ++ x :: l) with ((p ++ [x]) ++ l) in *
      by (rewrite <- app_assoc; reflexivity).
    replace (S (length p)) with (length (p ++ [x]))
      by (rewrite length_app; cbn; lia).
    destruct (keep x mp) eqn:Hk.
    + apply IH; try assumption.
      * rewrite nth_error_app1 by assumption. exact Hb.
      * intros k u Hu.
        destruct (Nat.lt_ge_cases k (length p)) as [Hlt|Hge].
        -- rewrite nth_error_app1 in Hu by assumption. eauto.
        -- rewrite nth_error_app2 in Hu by assumption.
           destruct (k - length p) as [|[|?]]; cbn in Hu;
             try discriminate. now inversion Hu; subst.
      * intros k u Hlt Hu.
        rewrite nth_error_app1 in Hu by lia. eauto.
    + assert (Hmx : keep mp x = true) by (apply keep_total; assumption).
      apply IH; try assumption.
      * rewrite nth_error_app2 by lia. rewrite Nat.sub_diag. reflexivity.
      * intros k u Hu.
        destruct (Nat.lt_ge_cases k (length p)) as [Hlt|Hge].
        -- rewrite nth_error_app1 in Hu by assumption.
           eapply keep_trans; [|exact Hmx]. eauto.
        -- rewrite nth_error_app2 in Hu by assumption.
           destruct (k - length p) as [|[|?]]; cbn in Hu;
             try discriminate. inversion Hu; subst. now apply keep_refl.
      * intros k u Hlt Hu.
        rewrite nth_error_app1 in Hu by assumption.
        destruct (keep x u) eqn:Hxu; [|reflexivity].
        assert (keep x mp = true)
          by (eapply keep_trans; [exact Hxu | eauto]).
        congruence.
Qed.

Lemma scan_index_bound (col : list float) :
  col <> [] -> np.scan_index keep col < length col.
Proof.
  destruct col as [|x l]; [congruence|]. intros _. cbn [np.scan_index length].
  pose proof (scan_bound l x 0 1). lia.
Qed.

Lemma scan_index_first (col : list float) :
  col <> [] -> no_nan col ->
  first_attains keep col (np.scan_index keep col).
Proof.
  destruct col as [|x l]; [congruence|]. intros _ Hnn. cbn [np.scan_index].
  apply (scan_first l [x] x 0); try assumption.
  - reflexivity.
  - intros [|[|k]] u Hu; cbn in Hu; try discriminate.
    inversion Hu; subst. apply keep_refl.
    unfold no_nan in Hnn. now inversion Hnn.
  - intros k u Hk. lia.
Qed.

End Scan.

Lemma argmax_first (col : list float) :
  col <> [] -> no_nan col ->
  exists j, np.argmax col = Ok j /\ j < length col /\ first_max col j.
Proof.
  intros Hne Hnn. exists (np.scan_index np.keep_max col). split; [|split].
  - destruct col; [congruence | reflexivity].
  - now apply scan_index_bound.
  - apply (scan_index_first np.keep_max); try assumption.
    + intros x. apply FloatOrder.leb_refl.
    + intros x y Hx Hy. unfold np.keep_max.
      apply FloatOrder.leb_total; assumption.
    + intros x y z. apply FloatOrder.leb_trans.
Qed.

Lemma argmin_first (col : list float) :
  col <> [] -> no_nan col ->
  exists j, np.argmin col = Ok j /\ j < length col /\ first_min col j.
Proof.
  intros Hne Hnn. exists (np.scan_index np.keep_min col). split; [|split].
  - destruct col; [congruence | reflexivity].
  - now apply scan_index_bound.
  - apply (scan_index_first np.keep_min); try assumption.
    + intros x. apply FloatOrder.leb_refl.
    + intros x y Hx Hy. unfold np.keep_min.
      apply FloatOrder.leb_total; assumption.
    + intros x y z H1 H2. unfold np.keep_min in *.
      eapply FloatOrder.leb_trans; eassumption.
Qed.

(* ================================================================== *)
(** * The initial guess                                                 *)
(* ================================================================== *)

Lemma set_item_spec (z : list float) (i : nat) (v : float) :
  i < length z ->
  exists z',
    np.set_item z i v = Ok z' /\
    length z' = length z /\
    nth_error z' i = Some v /\
    forall j, j <> i -> nth_error z' j = nth_error z j.
Proof.
  intros Hi. unfold np.set_item.
  replace (i <? length z) with true by (symmetry; now apply Nat.ltb_lt).
  eexists. split; [reflexivity|].
  assert (Lf : length (firstn i z) = i) by (rewrite length_firstn; lia).
  split; [|split].
  - rewrite length_app, Lf. cbn [length]. rewrite length_skipn. lia.
  - rewrite nth_error_app2 by lia. rewrite Lf, Nat.sub_diag. reflexivity.
  - intros j Hj. destruct (Nat.lt_ge_cases j i) as [Hlt|Hge].
    + rewrite nth_error_app1 by lia. rewrite nth_error_firstn.
      now replace (j <? i) with true by (symmetry; now apply Nat.ltb_lt).
    + rewrite nth_error_app2 by lia. rewrite Lf.
      destruct (j - i) as [|d] eqn:E; [lia|]. cbn [nth_error].
      rewrite nth_error_skipn. f_equal. lia.
Qed.

Lemma get_item_ok {A : Type} (l : list A) (i : nat) (a : A) :
  nth_error l i = Some a -> np.get_item l i = Ok a.
Proof. intros H. unfold np.get_item. now rewrite H. Qed.

Lemma nth_error_lt {A : Type} (l : list A) (i : nat) :
  i < length l -> exists a, nth_error l i = Some a.
Proof.
  intros H. destruct (nth_error l i) eqn:E; [eauto|].
  apply nth_error_None in E. lia.
Qed.

Lemma slope_estimate_run (w : world) (ivt : list (list float))
      (xini col : list float) (i : nat) :
  nth_error ivt (i - 1) = Some col ->
  col <> [] -> no_nan col ->
  length col = length (dvals (self w)) ->
  i < length xini ->
  exists xini' v,
    slope_estimate ivt xini i w = (Ok xini', w) /\
    length xini' = length xini /\
    nth_error xini' i = Some v /\
    slope_at col (dvals (self w)) (dm (self w)) v /\
    forall j, j <> i -> nth_error xini' j = nth_error xini j.
Proof.
  intros Hcol Hne Hnn Hlen Hi.
  destruct (argmax_first col Hne Hnn) as [jmax [Emax [Lmax Fmax]]].
  destruct (argmin_first col Hne Hnn) as [jmin [Emin [Lmin Fmin]]].
  destruct (nth_error_lt col jmax Lmax) as [vmax Hvmax].
  destruct (nth_error_lt col jmin Lmin) as [vmin Hvmin].
  destruct (nth_error_lt (dvals (self w)) jmax ltac:(lia)) as [dmax Hdmax].
  destruct (nth_error_lt (dvals (self w)) jmin ltac:(lia)) as [dmin Hdmin].
  destruct (set_item_spec xini i
              ((dmax - dmin) / (vmax - vmin) / float_of_nat (dm (self w)))
              Hi) as [xini' [Eset [Lx [Hat Hother]]]].
  exists xini'. eexists. unfold slope_estimate. run.
  rewrite (get_item_ok _ _ _ Hcol), Emax, (get_item_ok _ _ _ Hvmax),
    (get_item_ok _ _ _ Hdmax), Emin, (get_item_ok _ _ _ Hvmin),
    (get_item_ok _ _ _ Hdmin), Eset.
  split; [reflexivity|]. split; [exact Lx|]. split; [exact Hat|].
  split; [|exact Hother].
  exists jmax, jmin, vmax, vmin, dmax, dmin.
  repeat (split; [assumption|]). reflexivity.
Qed.

Lemma column_length (iv : list (list float)) (j : nat) :
  length (np.column iv j) = length iv.
Proof. apply length_map. Qed.

Lemma column_no_nan (iv : list (list float)) (D j : nat) :
  rows_of_dim D iv -> Forall no_nan iv -> j < D -> no_nan (np.column iv j).
Proof.
  intros Hr Hn Hj. unfold no_nan, np.column. rewrite Forall_map.
  rewrite Forall_forall. intros r Hin.
  unfold rows_of_dim in Hr. rewrite Forall_forall in Hr, Hn.
  specialize (Hr r Hin). specialize (Hn r Hin).
  unfold no_nan in Hn. rewrite Forall_forall in Hn.
  apply Hn. apply nth_In. lia.
Qed.

Lemma transpose_run (iv : list (list float)) (D : nat) :
  iv <> [] -> rows_of_dim D iv ->
  np.transpose iv = Ok (map (np.column iv) (seq 0 D)).
Proof.
  intros Hne Hr. destruct iv as [|r iv']; [congruence|].
  unfold np.transpose.
  assert (Lr : length r = D) by (now inversion Hr).
  replace (forallb (fun r' => length r' =? length r) (r :: iv')) with true.
  - now rewrite Lr.
  - symmetry. apply forallb_forall. intros r' Hin.
    unfold rows_of_dim in Hr. rewrite Forall_forall in Hr.
    rewrite (Hr r' Hin), Lr. apply Nat.eqb_refl.
Qed.

Lemma guess_loop (w : world) (iv : list (list float)) (D : nat) :
  iv <> [] -> rows_of_dim D iv -> Forall no_nan iv ->
  length iv = length (dvals (self w)) ->
  dm (self w) = D ->
  forall k a xini,
    1 <= a -> a + k = D + 1 -> length xini = D + 1 ->
    exists xini',
      foldM (slope_estimate (map (np.column iv) (seq 0 D))) (seq a k) xini w
        = (Ok xini', w) /\
      length xini' = D + 1 /\
      (forall j, j < a -> nth_error xini' j = nth_error xini j) /\
      (forall i, a <= i < a + k ->
         exists v, nth_error xini' i = Some v /\
                   slope_at (np.column iv (i - 1)) (dvals (self w)) D v).
Proof.
  intros Hne Hr Hnn Hlen HD.
  induction k as [|k IH]; intros a xini Ha Hak Hx; cbn [seq foldM].
  - exists xini. split; [reflexivity|]. split; [exact Hx|].
    split; [reflexivity|]. intros i Hi. lia.
  - assert (Hcol : nth_error (map (np.column iv) (seq 0 D)) (a - 1)
                   = Some (np.column iv (a - 1))).
    { rewrite nth_error_map.
      rewrite (nth_error_nth' _ 0) by (rewrite length_seq; lia).
      rewrite seq_nth by lia. reflexivity. }
    destruct (slope_estimate_run w _ xini _ a Hcol) as
      [x1 [v [E1 [L1 [Hat [Hsl Hother]]]]]].
    + intros E. apply (f_equal (@length float)) in E.
      rewrite column_length in E. destruct iv; [congruence | discriminate].
    + apply (column_no_nan iv D); [assumption | assumption | lia].
    + rewrite column_length. exact Hlen.
    + lia.
    + destruct (IH (S a) x1) as [x2 [E2 [L2 [Hkeep Hset]]]]; try lia.
      exists x2. unfold bind at 1. rewrite E1.
      split; [exact E2|]. split; [exact L2|]. split.
      * intros j Hj. rewrite Hkeep by lia. apply Hother. lia.
      * intros i Hi. destruct (Nat.eq_dec i a) as [->|Hne'].
        -- exists v. rewrite Hkeep by lia. split; [exact Hat|].
           rewrite <- HD. exact Hsl.
        -- apply Hset. lia.
Qed.

Lemma argmin_nonempty (l : list float) :
  l <> [] -> exists j, np.argmin l = Ok j.
Proof. destruct l; [congruence|]. intros _. eexists. reflexivity. Qed.

Section FitFacts.

Variable np_sum : list float -> float.
Variable leastsq :
  (list float -> result (list float)) ->
  list float ->
  (list float -> result (list (list float))) ->
  float -> float ->
  result lsq_output.

Lemma heuristic_guess_run (iv : list (list float)) (dv : list float)
      (D : nat) (out : list printed) :
  dv <> [] ->
  length iv = length dv ->
  rows_of_dim D iv ->
  Forall no_nan iv ->
  exists xini,
    heuristic_guess np_sum (fresh iv dv D out)
      = (Ok xini, fresh iv dv D out) /\
    length xini = D + 1 /\
    nth_error xini 0 = Some (np_sum dv / float_of_nat (length dv))%float /\
    forall i, 1 <= i <= D ->
      exists v, nth_error xini i = Some v /\
                slope_at (np.column iv (i - 1)) dv D v.
Proof.
  intros Hdv Hlen Hr Hnn.
  assert (Hiv : iv <> []).
  { intros ->. destruct dv; [congruence | discriminate]. }
  destruct (set_item_spec (np.zeros (D + 1)) 0 (np_average np_sum dv))
    as [x1 [E1 [L1 [H0 _]]]].
  { unfold np.zeros. rewrite repeat_length. lia. }
  unfold np.zeros in L1. rewrite repeat_length in L1.
  destruct (argmin_nonempty
              (map (fun d => abs (d - np_average np_sum dv)%float) dv))
    as [iave Eave].
  { intros E. apply map_eq_nil in E. contradiction. }
  destruct (guess_loop (fresh iv dv D out) iv D Hiv Hr Hnn Hlen eq_refl
              D 1 x1) as [xini [E2 [L2 [Hkeep Hset]]]]; try lia.
  exists xini. split; [|split; [|split]].
  - unfold heuristic_guess. run. cbn [fresh self __init__ npars dvals ivals].
    rewrite E1, (get_item_ok _ _ _ H0), Eave, (transpose_run iv D Hiv Hr).
    replace (D + 1 - 1) with D by lia. exact E2.
  - exact L2.
  - rewrite Hkeep by lia. exact H0.
  - intros i Hi. apply Hset. lia.
Qed.

(** ** What the methods read and write *)

Ltac reads_tac :=
  repeat first
    [ apply zcoord_reads | apply fplane_reads | apply objfun_reads
    | apply objjac_reads
    | apply reads_mapM; intros ?
    | apply reads_foldM; intros ? ?
    | apply reads_bind; [|intros ?]
    | apply reads_bound
    | apply reads_attr | apply reads_lift | apply reads_ret ].

Lemma heuristic_guess_reads : reads (heuristic_guess np_sum).
Proof. unfold heuristic_guess, slope_estimate. reads_tac. Qed.

Lemma initial_guess_reads (guess : option (list float)) :
  reads (initial_guess np_sum guess).
Proof.
  unfold initial_guess. destruct guess as [[|g0 g]|];
    first [apply heuristic_guess_reads | apply reads_ret].
Qed.

Lemma call_solver_reads (xini : list float) :
  reads (call_solver np_sum leastsq xini).
Proof. unfold call_solver. reads_tac. Qed.

Lemma parameter_errors_reads (pc : option (list (list float)))
      (resd : list float) :
  reads (parameter_errors np_sum pc resd).
Proof.
  unfold parameter_errors. apply reads_bind; [apply reads_attr|].
  intros nd. destruct (0 <? nd)%Z, pc; reads_tac.
Qed.

Ltac depends_tac :=
  repeat first
    [ apply depends_mapM; intros ?
    | apply depends_foldM; intros ? ?
    | apply depends_forM_; intros ?
    | apply depends_bind; [|intros ?]
    | apply depends_bound; intros ?
    | apply depends_print
    | apply depends_attr | apply depends_lift | apply depends_ret ].

Lemma zcoord_depends (x : list float) : depends_on_self (zcoord x).
Proof. unfold zcoord. depends_tac. Qed.

Lemma objfun_depends (pars : list float) :
  depends_on_self (objfun np_sum pars).
Proof. unfold objfun, fplane, zcoord. depends_tac. Qed.

Lemma objjac_depends (pars : list float) : depends_on_self (objjac pars).
Proof. unfold objjac, zcoord. depends_tac. Qed.

Lemma initial_guess_depends (guess : option (list float)) :
  depends_on_self (initial_guess np_sum guess).
Proof.
  unfold initial_guess. destruct guess as [[|g0 g]|];
    unfold heuristic_guess, slope_estimate; depends_tac.
Qed.

Lemma call_solver_depends (xini : list float) :
  depends_on_self (call_solver np_sum leastsq xini).
Proof.
  unfold call_solver.
  apply depends_bind; [apply depends_bound, objfun_depends|]. intros func.
  apply depends_bind; [apply depends_bound, objjac_depends|]. intros Dfun.
  apply depends_lift.
Qed.

Lemma parameter_errors_depends (pc : option (list (list float)))
      (resd : list float) :
  depends_on_self (parameter_errors np_sum pc resd).
Proof.
  unfold parameter_errors. apply depends_bind; [apply depends_attr|].
  intros nd. destruct (0 <? nd)%Z, pc; depends_tac.
Qed.

Lemma report_depends (o : lsq_output) (perr : list (option float)) :
  depends_on_self (report o perr).
Proof. unfold report. depends_tac. Qed.

Lemma solve_from_depends (xini : list float) (do_print : bool) :
  depends_on_self (solve_from np_sum leastsq xini do_print).
Proof.
  unfold solve_from.
  apply depends_bind; [apply call_solver_depends|]. intros o.
  apply depends_bind; [apply objfun_depends|]. intros resd.
  apply depends_bind; [apply parameter_errors_depends|]. intros perr.
  apply depends_bind; [|intros _; apply depends_ret].
  destruct do_print; [apply report_depends | apply depends_ret].
Qed.

Lemma dolsq_depends (guess : option (list float)) (do_print : bool) :
  depends_on_self (dolsq np_sum leastsq guess do_print).
Proof.
  unfold dolsq. apply depends_bind; [apply initial_guess_depends|].
  intros xini. apply solve_from_depends.
Qed.

(** Printing always succeeds. *)
Lemma forM_print_ok {A : Type} (g : A -> printed) (l : list A) (w : world) :
  exists w', forM_ (fun a => print (g a)) l w = (Ok tt, w').
Proof.
  revert w. induction l as [|a l IH]; intros w; cbn [forM_].
  - eexists. reflexivity.
  - unfold bind at 1. unfold print at 1. apply IH.
Qed.

Lemma report_ok (o : lsq_output) (perr : list (option float)) (w : world) :
  fst (report o perr w) = Ok tt.
Proof.
  unfold report.
  unfold bind at 1. unfold print at 1.
  unfold bind at 1. unfold print at 1.
  unfold bind at 1.
  match goal with
  | |- context [forM_ ?f ?l ?w1] =>
      destruct (forM_print_ok (fun kv => PrintItem (fst kv) (snd kv)) l w1)
        as [w2 E]; rewrite E
  end.
  reflexivity.
Qed.

(** ** Running [dolsq] *)

Lemma reads_run {A : Type} (m : M A) (w : world) :
  reads m -> m w = (fst (m w), w).
Proof. intros H. specialize (H w). destruct (m w); cbn in *. now subst. Qed.

Lemma parameter_errors_some (w : world) (pc : list (list float))
      (resd : list float) :
  (0 < ndf (self w))%Z ->
  parameter_errors np_sum (Some pc) resd w =
    (Ok (map Some
           (map sqrt
              (np.diag
                 (map (map (fun v =>
                              (v * (np_sum (map (fun r => r * r) resd)
                                    / float_of_Z (ndf (self w))))%float))
                    pc)))), w).
Proof.
  intros H. unfold parameter_errors. run.
  replace (0 <? ndf (self w))%Z with true
    by (symmetry; now apply Z.ltb_lt).
  reflexivity.
Qed.

Lemma parameter_errors_none (w : world) (pc : option (list (list float)))
      (resd : list float) :
  (ndf (self w) <= 0)%Z \/ pc = None ->
  parameter_errors np_sum pc resd w =
    (Ok (repeat None (npars (self w))), w).
Proof.
  intros H. unfold parameter_errors. run.
  destruct H as [H| ->].
  - replace (0 <? ndf (self w))%Z with false
      by (symmetry; now apply Z.ltb_ge).
    reflexivity.
  - destruct (0 <? ndf (self w))%Z; reflexivity.
Qed.

Lemma solve_from_run (w : world) (xini : list float) (do_print : bool)
      (o : lsq_output) (resd : list float) (perr : list (option float)) :
  fst (call_solver np_sum leastsq xini w) = Ok o ->
  fst (objfun np_sum (popt o) w) = Ok resd ->
  parameter_errors np_sum (pcov o) resd w = (Ok perr, w) ->
  fst (solve_from np_sum leastsq xini do_print w) = Ok (popt o, perr).
Proof.
  intros Hs Hr Hp. unfold solve_from.
  unfold bind at 1.
  rewrite (reads_run _ w (call_solver_reads xini)), Hs.
  unfold bind at 1.
  rewrite (reads_run _ w (objfun_reads np_sum (popt o))), Hr.
  unfold bind at 1. rewrite Hp.
  unfold bind at 1. destruct do_print; [|reflexivity].
  pose proof (report_ok o perr w) as Hk.
  destruct (report o perr w) as [[[]|e] w']; cbn in Hk;
    [reflexivity | discriminate].
Qed.

Lemma dolsq_run (w : world) (guess : option (list float))
      (do_print : bool) (xini : list float) :
  fst (initial_guess np_sum guess w) = Ok xini ->
  dolsq np_sum leastsq guess do_print w
    = solve_from np_sum leastsq xini do_print w.
Proof.
  intros Hg. unfold dolsq. unfold bind at 1.
  rewrite (reads_run _ w (initial_guess_reads guess)), Hg. reflexivity.
Qed.

Lemma diag_from_spec (m : list (list float)) :
  forall k,
    Forall (fun row => k + length m <= length row) m ->
    length (np.diag_from k m) = length m /\
    forall i row, nth_error m i = Some row ->
                  nth_error (np.diag_from k m) i = nth_error row (k + i).
Proof.
  induction m as [|r m IH]; intros k H; cbn [np.diag_from length].
  - split; [reflexivity|]. intros [|i] row Hrow; discriminate.
  - inversion H as [|? ? Hr Hm]; subst. cbn [length] in Hr.
    destruct (nth_error_lt r k ltac:(lia)) as [v Hv]. rewrite Hv.
    destruct (IH (S k)) as [IL IN].
    { eapply Forall_impl; [|exact Hm]. cbn. intros row Hrow.
      cbn [length] in Hrow. lia. }
    split; [cbn; now rewrite IL|].
    intros [|i] row Hrow; cbn in Hrow |- *.
    + inversion Hrow; subst. now rewrite Nat.add_0_r.
    + rewrite (IN i row Hrow). f_equal. lia.
Qed.

(** C1: when [ndf > 0] and the solver returns a covariance proxy (an
    [npars] by [npars] matrix), entry [i] of the returned errors is the
    square root of the [i]-th diagonal entry of the proxy times the
    residual variance, the sum of the squared residuals at the optimum
    over [ndf], for every [i] in 0..D. *)
Theorem dolsq_errors (iv : list (list float)) (dv : list float) (D : nat)
        (out : list printed) (guess : option (list float))
        (do_print : bool) (xini : list float) (o : lsq_output)
        (resd : list float) (pc : list (list float)) :
  let w := fresh iv dv D out in
  fst (initial_guess np_sum guess w) = Ok xini ->
  fst (call_solver np_sum leastsq xini w) = Ok o ->
  fst (objfun np_sum (popt o) w) = Ok resd ->
  (0 < ndf (self w))%Z ->
  pcov o = Some pc ->
  length pc = D + 1 ->
  Forall (fun row => length row = D + 1) pc ->
  exists perr,
    fst (dolsq np_sum leastsq guess do_print w) = Ok (popt o, perr) /\
    length perr = D + 1 /\
    forall i, i <= D ->
      exists row c,
        nth_error pc i = Some row /\ nth_error row i = Some c /\
        nth_error perr i =
          Some (Some (sqrt (c * (np_sum (map (fun r => r * r)%float resd)
                                 / float_of_Z (ndf (self w))))%float)).
Proof.
  intros w Hg Hs Hr Hn Hpc Hl Hsq.
  eexists. split; [|split].
  - rewrite (dolsq_run w guess do_print xini Hg).
    eapply solve_from_run; try eassumption.
    rewrite Hpc. apply parameter_errors_some. exact Hn.
  - rewrite !length_map.
    match goal with |- length (np.diag ?m) = _ =>
      destruct (diag_from_spec m 0) as [L _] end.
    + rewrite Forall_map. eapply Forall_impl; [|exact Hsq].
      cbn. intros row Hrow. rewrite !length_map. lia.
    + unfold np.diag. rewrite L, length_map. exact Hl.
  - intros i Hi.
    destruct (nth_error_lt pc i ltac:(lia)) as [row Hrow].
    assert (Lrow : length row = D + 1).
    { rewrite Forall_forall in Hsq. apply Hsq.
      eapply nth_error_In; eassumption. }
    destruct (nth_error_lt row i ltac:(lia)) as [c Hc].
    exists row, c. split; [exact Hrow|]. split; [exact Hc|].
    rewrite !nth_error_map.
    match goal with |- context [np.diag ?m] =>
      destruct (diag_from_spec m 0) as [_ N] end.
    + rewrite Forall_map. eapply Forall_impl; [|exact Hsq].
      cbn. intros row' Hrow'. rewrite !length_map. lia.
    + unfold np.diag.
      rewrite (N i (map (fun v =>
                          (v * (np_sum (map (fun r => r * r) resd)
                                / float_of_Z (ndf (self w))))%float) row)).
      * cbn [Nat.add]. rewrite nth_error_map, Hc. reflexivity.
      * rewrite nth_error_map, Hrow. reflexivity.
Qed.

(** C6: without a guess, entry 0 of the constructed guess is the mean
    of the dependent values, and entry [i], for each axis [i] in 1..D,
    is the dependent value at the first sample where the axis is
    maximal, minus the dependent value at the first sample where it is
    minimal, over the maximum minus the minimum, over [D].  The sample
    set has at least one sample, [D] coordinates per sample and no NaN
    among the independent values. *)
Theorem dolsq_heuristic_guess (iv : list (list float)) (dv : list float)
        (D : nat) (out : list printed) :
  dv <> [] ->
  length iv = length dv ->
  rows_of_dim D iv ->
  Forall no_nan iv ->
  exists xini,
    initial_guess np_sum None (fresh iv dv D out)
      = (Ok xini, fresh iv dv D out) /\
    (forall do_print,
       dolsq np_sum leastsq None do_print (fresh iv dv D out)
       = solve_from np_sum leastsq xini do_print (fresh iv dv D out)) /\
    length xini = D + 1 /\
    nth_error xini 0 = Some (np_sum dv / float_of_nat (length dv))%float /\
    forall i, 1 <= i <= D ->
      exists jmax jmin vmax vmin dmax dmin,
        first_max (np.column iv (i - 1)) jmax /\
        first_min (np.column iv (i - 1)) jmin /\
        nth_error (np.column iv (i - 1)) jmax = Some vmax /\
        nth_error (np.column iv (i - 1)) jmin = Some vmin /\
        nth_error dv jmax = Some dmax /\
        nth_error dv jmin = Some dmin /\
        nth_error xini i =
          Some ((dmax - dmin) / (vmax - vmin) / float_of_nat D)%float.
Proof.
  intros Hdv Hlen Hr Hnn.
  destruct (heuristic_guess_run iv dv D out Hdv Hlen Hr Hnn)
    as [xini [E [L [H0 Hs]]]].
  exists xini. split; [exact E|]. split; [|split; [exact L|split]].
  - intros do_print. apply dolsq_run.
    change (initial_guess np_sum None) with (heuristic_guess np_sum).
    now rewrite E.
  - exact H0.
  - intros i Hi. destruct (Hs i Hi) as [v [Hv Hsl]].
    destruct Hsl as (jmax & jmin & vmax & vmin & dmax & dmin &
                     F1 & F2 & V1 & V2 & D1 & D2 & ->).
    exists jmax, jmin, vmax, vmin, dmax, dmin.
    repeat (split; [assumption|]). exact Hv.
Qed.

(** ** The guess has [npars] entries whenever it is built *)







(** ** Printing does not change the result *)

Lemma solve_from_print (xini : list float) (do_print : bool) (w : world) :
  fst (solve_from np_sum leastsq xini do_print w)
    = fst (solve_from np_sum leastsq xini false w).
Proof.
  unfold solve_from. unfold bind.
  destruct (call_solver np_sum leastsq xini w) as [[o|e] w1];
    [|reflexivity].
  destruct (objfun np_sum (popt o) w1) as [[resd|e] w2]; [|reflexivity].
  destruct (parameter_errors np_sum (pcov o) resd w2) as [[perr|e] w3];
    [|reflexivity].
  destruct do_print; [|reflexivity].
  pose proof (report_ok o perr w3) as Hk.
  destruct (report o perr w3) as [[[]|e] w4]; cbn in Hk;
    [reflexivity | discriminate].
Qed.

Lemma dolsq_print (guess : option (list float)) (do_print : bool)
      (w : world) :
  fst (dolsq np_sum leastsq guess do_print w)
    = fst (dolsq np_sum leastsq guess false w).
Proof.
  unfold dolsq, bind.
  destruct (initial_guess np_sum guess w) as [[xini|e] w1];
    [|reflexivity].
  apply solve_from_print.
Qed.

(** C9: a call of [dolsq] leaves the six attributes of the object as
    [__init__] set them, and its result is determined by the object and
    the guess: a call from any other state of the output, with any
    printing flag, and a second call after the first, return the same
    result. *)
Theorem dolsq_frame (iv : list (list float)) (dv : list float) (D : nat)
        (out : list printed) (guess : option (list float))
        (do_print : bool) :
  let w := fresh iv dv D out in
  let w' := snd (dolsq np_sum leastsq guess do_print w) in
  ivals (self w') = iv /\
  dvals (self w') = dv /\
  dm (self w') = D /\
  npars (self w') = D + 1 /\
  npts (self w') = length dv /\
  ndf (self w') = (Z.of_nat (length dv) - Z.of_nat (D + 1))%Z /\
  (forall out2 do_print2,
     fst (dolsq np_sum leastsq guess do_print2 (fresh iv dv D out2))
     = fst (dolsq np_sum leastsq guess do_print w)) /\
  fst (dolsq np_sum leastsq guess do_print w')
    = fst (dolsq np_sum leastsq guess do_print w).
Proof.
  intros w w'.
  assert (F : self w' = self w).
  { subst w'. apply (dolsq_depends guess do_print). }
  rewrite F. repeat (split; [reflexivity|]). split.
  - intros out2 do_print2.
    rewrite (dolsq_print guess do_print2), (dolsq_print guess do_print w).
    apply (dolsq_depends guess false). reflexivity.
  - apply (dolsq_depends guess do_print). exact F.
Qed.

(** ** A guess of the wrong length *)

Lemma set_slice_cases (n : nat) (src : list float) :
  np.set_slice (np.empty (n + 1)) 1 (n + 1) src = Raise ValueError \/
  exists z, np.set_slice (np.empty (n + 1)) 1 (n + 1) src
            = Ok (0%float :: z) /\ length z = n.
Proof.
  assert (L : length (np.slice (np.empty (n + 1)) 1 (n + 1)) = n).
  { unfold np.slice, np.empty. replace (n + 1) with (S n) by lia.
    cbn [repeat skipn]. rewrite length_firstn, repeat_length. lia. }
  assert (F : firstn 1 (np.empty (n + 1)) = [0%float]).
  { unfold np.empty. replace (n + 1) with (S n) by lia. reflexivity. }
  assert (S : skipn (1 + n) (np.empty (n + 1)) = []).
  { apply skipn_all2. unfold np.empty. rewrite repeat_length. lia. }
  unfold np.set_slice. rewrite L, F, S.
  destruct (length src =? n) eqn:E1.
  - right. apply Nat.eqb_eq in E1. exists (src ++ []). split; [reflexivity|].
    rewrite length_app. cbn. lia.
  - destruct (length src =? 1) eqn:E2.
    + right. eexists. split; [reflexivity|].
      rewrite length_app, repeat_length. cbn. lia.
    + now left.
Qed.

Lemma zcoord_cases (w : world) (x : list float) :
  npars (self w) = dm (self w) + 1 ->
  zcoord x w = (Raise ValueError, w) \/
  exists z, zcoord x w = (Ok z, w) /\ length z = dm (self w) + 1.
Proof.
  intros Hn. unfold zcoord. run. rewrite Hn.
  destruct (set_slice_cases (dm (self w)) (np.slice x 0 (dm (self w))))
    as [E|[z [E L]]]; rewrite E.
  - now left.
  - right. exists (1%float :: z). split; [reflexivity|]. cbn. lia.
Qed.

Lemma objfun_wrong_length (w : world) (pars : list float) :
  npars (self w) = dm (self w) + 1 ->
  1 <= dm (self w) ->
  ivals (self w) <> [] -> dvals (self w) <> [] ->
  length pars <> 1 -> length pars <> dm (self w) + 1 ->
  objfun np_sum pars w = (Raise ValueError, w).
Proof.
  intros Hn HD Hiv Hdv H1 H2. unfold objfun.
  unfold bind at 1. unfold attr at 1.
  unfold bind at 1. unfold attr at 1.
  destruct (ivals (self w)) as [|x iv']; [congruence|].
  destruct (dvals (self w)) as [|d dv']; [congruence|].
  cbn [combine]. apply mapM_raises. cbn [fst snd].
  unfold bind at 1. unfold fplane. unfold bind at 1.
  destruct (zcoord_cases w x Hn) as [E|[z [E L]]]; rewrite E.
  - reflexivity.
  - unfold bind at 1. unfold lift at 1. unfold np.broadcast_mul.
    replace (length z =? length pars) with false
      by (symmetry; apply Nat.eqb_neq; lia).
    replace (length pars =? 1) with false
      by (symmetry; now apply Nat.eqb_neq).
    replace (length z =? 1) with false
      by (symmetry; apply Nat.eqb_neq; lia).
    reflexivity.
Qed.

End FitFacts.

(* ================================================================== *)
(** * A solver that checks its input                                    *)
(* ================================================================== *)



Section SolverContract.

Variable np_sum : list float -> float.
Variable leastsq :
  (list float -> result (list float)) ->
  list float ->
  (list float -> result (list (list float))) ->
  float -> float ->
  result lsq_output.







End SolverContract.

(* ================================================================== *)
(** * Concrete runs                                                     *)
(* ================================================================== *)


(** ** The theorems at concrete inputs *)




(** [zcoord_padded] on a vector of dimension 2. *)
Lemma zcoord_padded_flat :
  exists z,
    zcoord [2%float; 3%float] flat_world = (Ok z, flat_world) /\
    length z = 2 + 1 /\
    nth_error z 0 = Some 1%float /\
    forall i, i < 2 -> nth_error z (S i) = nth_error [2%float; 3%float] i.
Proof.
  apply (zcoord_padded flat_iv flat_dv 2 [] [2%float; 3%float]). reflexivity.
Defined.

(** [objfun_residuals] on the four samples of the line. *)
Lemma objfun_residuals_line :
  exists r,
    objfun sum_in_order [5.5%float; 2%float] line_world = (Ok r, line_world) /\
    length r = length line_dv /\
    forall i d x,
      nth_error line_dv i = Some d ->
      nth_error line_iv i = Some x ->
      exists z f,
        zcoord x line_world = (Ok z, line_world) /\
        fplane sum_in_order x [5.5%float; 2%float] line_world
          = (Ok f, line_world) /\
        f = sum_in_order (np.mul z [5.5%float; 2%float]) /\
        nth_error r i = Some (d - f)%float.
Proof.
  apply (objfun_residuals sum_in_order line_iv line_dv 1 []
           [5.5%float; 2%float]).
  - repeat constructor.
  - reflexivity.
  - reflexivity.
Defined.

(** [objjac_rows] on the four samples of the line. *)
Lemma objjac_rows_line :
  exists J,
    objjac [5.5%float; 2%float] line_world = (Ok J, line_world) /\
    length J = length line_iv /\
    Forall (fun row => length row = 1 + 1) J /\
    forall i x,
      nth_error line_iv i = Some x ->
      exists z,
        zcoord x line_world = (Ok z, line_world) /\
        nth_error J i = Some (map PrimFloat.opp z).
Proof.
  apply (proj2 (objjac_rows line_iv line_dv 1 [])). repeat constructor.
Defined.

(** [dolsq_errors] on the four samples of the line: two degrees of
    freedom and a regular covariance proxy. *)
Lemma dolsq_errors_line :
  exists perr,
    fst (dolsq sum_in_order (probe_leastsq line_fit)
           (Some [5%float; 1%float]) true line_world)
      = Ok (popt (line_fit [5%float; 1%float]), perr) /\
    length perr = 1 + 1 /\
    forall i, i <= 1 ->
      exists row c,
        nth_error [[0.25%float; 0%float]; [0%float; 0.25%float]] i
          = Some row /\
        nth_error row i = Some c /\
        nth_error perr i =
          Some (Some (sqrt (c * (sum_in_order
                                   (map (fun r => r * r)%float
                                      [(-0.5)%float; (-0.5)%float;
                                       0.5%float; 0.5%float])
                                 / float_of_Z (ndf (self line_world))))%float)).
Proof.
  apply (dolsq_errors sum_in_order (probe_leastsq line_fit)
           line_iv line_dv 1 [] (Some [5%float; 1%float]) true
           [5%float; 1%float] (line_fit [5%float; 1%float])).
  - reflexivity.
  - vm_compute. reflexivity.
  - vm_compute. reflexivity.
  - reflexivity.
  - reflexivity.
  - reflexivity.
  - repeat constructor.
Defined.

(** [dolsq_heuristic_guess] on the three samples of the ramp. *)
Lemma dolsq_heuristic_guess_ramp :
  exists xini,
    initial_guess sum_in_order None ramp_world = (Ok xini, ramp_world) /\
    (forall do_print,
       dolsq sum_in_order (probe_leastsq stay) None do_print ramp_world
       = solve_from sum_in_order (probe_leastsq stay) xini do_print
           ramp_world) /\
    length xini = 1 + 1 /\
    nth_error xini 0
      = Some (sum_in_order ramp_dv / float_of_nat (length ramp_dv))%float /\
    forall i, 1 <= i <= 1 ->
      exists jmax jmin vmax vmin dmax dmin,
        first_max (np.column ramp_iv (i - 1)) jmax /\
        first_min (np.column ramp_iv (i - 1)) jmin /\
        nth_error (np.column ramp_iv (i - 1)) jmax = Some vmax /\
        nth_error (np.column ramp_iv (i - 1)) jmin = Some vmin /\
        nth_error ramp_dv jmax = Some dmax /\
        nth_error ramp_dv jmin = Some dmin /\
        nth_error xini i =
          Some ((dmax - dmin) / (vmax - vmin) / float_of_nat 1)%float.
Proof.
  apply (dolsq_heuristic_guess sum_in_order (probe_leastsq stay)
           ramp_iv ramp_dv 1 []).
  - discriminate.
  - reflexivity.
  - repeat constructor.
  - repeat constructor.
Defined.

(* ================================================================== *)
(** * Arithmetic facts on binary64 numbers                              *)
(* ================================================================== *)

Module FloatArith.

Import SpecFloat.
Local Open Scope float_scope.

Lemma opp_involutive (x : float) : - (- x) = x.
Proof.
  apply Prim2SF_inj. rewrite !opp_spec.
  destruct (Prim2SF x) as [s|s| |s m e]; cbn; now rewrite ?negb_involutive.
Qed.




End FloatArith.

(* ================================================================== *)
(** * Vectors of the wrong dimension                                    *)
(* ================================================================== *)

Lemma set_slice_empty (n : nat) (src : list float) :
  np.set_slice (np.empty (n + 1)) 1 (n + 1) src =
    if length src =? n then Ok (0%float :: src)
    else if length src =? 1 then Ok (0%float :: repeat (hd 0%float src) n)
    else Raise ValueError.
Proof.
  assert (L : length (np.slice (np.empty (n + 1)) 1 (n + 1)) = n).
  { unfold np.slice, np.empty. replace (n + 1) with (S n) by lia.
    cbn [repeat skipn]. rewrite length_firstn, repeat_length. lia. }
  assert (F : firstn 1 (np.empty (n + 1)) = [0%float]).
  { unfold np.empty. replace (n + 1) with (S n) by lia. reflexivity. }
  assert (S : skipn (1 + n) (np.empty (n + 1)) = []).
  { apply skipn_all2. unfold np.empty. rewrite repeat_length. lia. }
  unfold np.set_slice. rewrite L, F, S.
  destruct (length src =? n); [cbn; now rewrite app_nil_r|].
  destruct (length src =? 1); [cbn; now rewrite app_nil_r|].
  reflexivity.
Qed.

(** [zcoord] on any vector: the first [dm] coordinates are taken; they
    fill the vector when there are [dm] of them, a single one is
    repeated, and any other number of them is a shape error. *)
Lemma zcoord_eval (w : world) (x : list float) :
  npars (self w) = dm (self w) + 1 ->
  zcoord x w =
    (let xs := firstn (dm (self w)) x in
     if length xs =? dm (self w) then Ok (1%float :: xs)
     else if length xs =? 1
          then Ok (1%float :: repeat (hd 0%float xs) (dm (self w)))
          else Raise ValueError,
     w).
Proof.
  intros Hn. unfold zcoord. run. rewrite Hn.
  unfold np.slice. rewrite Nat.sub_0_r. cbn [skipn].
  rewrite set_slice_empty. cbv zeta.
  destruct (length (firstn (dm (self w)) x) =? dm (self w)); [reflexivity|].
  destruct (length (firstn (dm (self w)) x) =? 1); reflexivity.
Qed.

(** X1: a vector with more than [D] coordinates is not rejected: the
    coordinates after the first [D] are dropped. *)
Theorem zcoord_truncates (iv : list (list float)) (dv : list float) (D : nat)
        (out : list printed) (x : list float) :
  D <= length x ->
  zcoord x (fresh iv dv D out) = (Ok (1%float :: firstn D x), fresh iv dv D out).
Proof.
  intros H. rewrite zcoord_eval by reflexivity. cbn [fresh self __init__ dm].
  cbv zeta. rewrite length_firstn.
  replace (Nat.min D (length x) =? D) with true
    by (symmetry; apply Nat.eqb_eq; lia).
  reflexivity.
Qed.

(** X2: a vector with a single coordinate is not rejected either,
    whatever [D] is: the coordinate is repeated [D] times. *)
Theorem zcoord_repeats_single (iv : list (list float)) (dv : list float)
        (D : nat) (out : list printed) (c : float) :
  zcoord [c] (fresh iv dv D out) = (Ok (1%float :: repeat c D), fresh iv dv D out).
Proof.
  rewrite zcoord_eval by reflexivity. cbn [fresh self __init__ dm]. cbv zeta.
  destruct D as [|[|D]]; reflexivity.
Qed.

(** X3: a vector with fewer than [D] coordinates, and not exactly one,
    makes [zcoord] raise [ValueError]; the state is untouched. *)
Theorem zcoord_rejects_short (iv : list (list float)) (dv : list float)
        (D : nat) (out : list printed) (x : list float) :
  length x < D -> length x <> 1 ->
  zcoord x (fresh iv dv D out) = (Raise ValueError, fresh iv dv D out).
Proof.
  intros H1 H2. rewrite zcoord_eval by reflexivity.
  cbn [fresh self __init__ dm]. cbv zeta. rewrite length_firstn.
  replace (Nat.min D (length x) =? D) with false
    by (symmetry; apply Nat.eqb_neq; lia).
  replace (Nat.min D (length x) =? 1) with false
    by (symmetry; apply Nat.eqb_neq; lia).
  reflexivity.
Qed.

(* ================================================================== *)
(** * Residuals and Jacobian on unusual inputs                          *)
(* ================================================================== *)

Lemma nth_error_combine {A B : Type} (l : list A) (l' : list B) (i : nat)
      (a : A) (b : B) :
  nth_error l i = Some a -> nth_error l' i = Some b ->
  nth_error (combine l l') i = Some (a, b).
Proof.
  revert l' i. induction l as [|a0 l IH]; intros [|b0 l'] [|i] Ha Hb;
    cbn in *; try discriminate; try congruence.
  now apply IH.
Qed.

Section ResidualEdges.

Variable np_sum : list float -> float.

(** X4: the residuals are computed over the pairs of [zip(dvals,
    ivals)], so there are as many as the shorter of the two sequences
    has elements, while the Jacobian has one row per independent
    vector.  The two have the same size exactly when there are at least
    as many dependent values as independent vectors; with more
    independent vectors the residual vector is the shorter one, and no
    error is raised. *)
Theorem objfun_pairs_samples (iv : list (list float)) (dv : list float)
        (D : nat) (out : list printed) (pars : list float) :
  rows_of_dim D iv ->
  length pars = D + 1 ->
  exists r J,
    objfun np_sum pars (fresh iv dv D out) = (Ok r, fresh iv dv D out) /\
    objjac pars (fresh iv dv D out) = (Ok J, fresh iv dv D out) /\
    length r = Nat.min (length dv) (length iv) /\
    length J = length iv /\
    (length r = length J <-> length iv <= length dv) /\
    (length dv < length iv -> length r < length J).
Proof.
  intros Hr Hp. eexists. eexists. split; [|split].
  - apply objfun_run; [reflexivity | exact Hr | exact Hp].
  - apply objjac_run; [reflexivity | exact Hr].
  - cbn [fresh self dvals ivals __init__].
    rewrite !length_map, length_combine. repeat split; lia.
Qed.

Lemma fplane_single (w : world) (x : list float) (c : float) :
  npars (self w) = dm (self w) + 1 ->
  length x = dm (self w) ->
  fplane np_sum x [c] w
    = (Ok (np_sum (map (fun a => (a * c)%float) (1%float :: x))), w).
Proof.
  intros Hn Hx. unfold fplane. unfold bind at 1.
  rewrite zcoord_run by assumption. run.
  unfold np.broadcast_mul. cbn [length].
  destruct x as [|x0 x]; [reflexivity|].
  cbn [length Nat.eqb hd]. destruct (length x); reflexivity.
Qed.

(** X5: a parameter vector with a single entry [c] is accepted: it is
    broadcast, every padded coordinate is multiplied by [c], and
    residual [i] is [dvals[i] - sum(c * zcoord(ivals[i]))]. *)
Theorem objfun_broadcasts_single (iv : list (list float)) (dv : list float)
        (D : nat) (out : list printed) (c : float) :
  rows_of_dim D iv ->
  exists r,
    objfun np_sum [c] (fresh iv dv D out) = (Ok r, fresh iv dv D out) /\
    forall i d x,
      nth_error dv i = Some d ->
      nth_error iv i = Some x ->
      nth_error r i
        = Some (d - np_sum (map (fun a => (a * c)%float) (1%float :: x)))%float.
Proof.
  intros Hr.
  exists (map (fun p : float * list float =>
                 (fst p - np_sum (map (fun a => (a * c)%float)
                                      (1%float :: snd p)))%float)
              (combine dv iv)).
  split.
  - unfold objfun. run. cbn [fresh self dvals ivals __init__].
    apply mapM_run. intros [d x] Hin. cbn [fst snd]. cbv beta.
    rewrite fplane_single; [reflexivity | reflexivity |].
    apply in_combine_r in Hin.
    unfold rows_of_dim in Hr. rewrite Forall_forall in Hr. now apply Hr.
  - intros i d x Hd Hx.
    rewrite nth_error_map, (nth_error_combine _ _ _ _ _ Hd Hx). reflexivity.
Qed.

(** X6: for [D >= 1], a parameter vector whose length is neither 1 nor
    [D + 1] makes [objfun] raise [ValueError] exactly when there is a
    sample to evaluate; with no dependent value or no independent vector
    it returns the empty array. *)
Theorem objfun_wrong_length_cases (iv : list (list float)) (dv : list float)
        (D : nat) (out : list printed) (pars : list float) :
  1 <= D -> length pars <> 1 -> length pars <> D + 1 ->
  (iv <> [] /\ dv <> [] ->
   objfun np_sum pars (fresh iv dv D out)
     = (Raise ValueError, fresh iv dv D out)) /\
  (iv = [] \/ dv = [] ->
   objfun np_sum pars (fresh iv dv D out) = (Ok [], fresh iv dv D out)).
Proof.
  intros HD H1 H2. split.
  - intros [Hiv Hdv]. apply objfun_wrong_length; try assumption; reflexivity.
  - intros H. unfold objfun. run. cbn [fresh self dvals ivals __init__].
    destruct H as [-> | ->]; [destruct dv|]; reflexivity.
Qed.

(** X7: the rows of the Jacobian line up with the residuals: residual
    [i] is the dependent value minus the sum of the products of the
    negated Jacobian row [i] with the parameters. *)
Theorem objfun_from_objjac (iv : list (list float)) (dv : list float)
        (D : nat) (out : list printed) (pars : list float) :
  rows_of_dim D iv ->
  length pars = D + 1 ->
  exists r J,
    objfun np_sum pars (fresh iv dv D out) = (Ok r, fresh iv dv D out) /\
    objjac pars (fresh iv dv D out) = (Ok J, fresh iv dv D out) /\
    forall i d row,
      nth_error dv i = Some d ->
      nth_error J i = Some row ->
      nth_error r i
        = Some (d - np_sum (np.mul (map PrimFloat.opp row) pars))%float.
Proof.
  intros Hr Hp. eexists. eexists. split; [|split].
  - apply objfun_run; [reflexivity | exact Hr | exact Hp].
  - apply objjac_run; [reflexivity | exact Hr].
  - cbn [fresh self dvals ivals __init__]. intros i d row Hd Hrow.
    rewrite nth_error_map in Hrow.
    destruct (nth_error iv i) as [x|] eqn:Hx; [|discriminate].
    cbn in Hrow. inversion Hrow; subst row. clear Hrow.
    rewrite nth_error_map, (nth_error_combine _ _ _ _ _ Hd Hx).
    cbn [option_map fst snd map]. rewrite map_map.
    rewrite (map_ext _ (fun a => a) (fun a => FloatArith.opp_involutive a)).
    rewrite map_id. reflexivity.
Qed.

End ResidualEdges.

(* ================================================================== *)
(** * The guess on every sample set                                     *)
(* ================================================================== *)

Lemma argmax_index (col : list float) :
  col <> [] -> np.argmax col = Ok (np.scan_index np.keep_max col).
Proof. destruct col; [congruence | reflexivity]. Qed.

Lemma argmin_index (col : list float) :
  col <> [] -> np.argmin col = Ok (np.scan_index np.keep_min col).
Proof. destruct col; [congruence | reflexivity]. Qed.

Lemma nth_error_nth_lt {A : Type} (l : list A) (i : nat) (d : A) :
  i < length l -> nth_error l i = Some (nth i l d).
Proof. intros H. now apply nth_error_nth'. Qed.

Lemma set_item_run (z : list float) (i : nat) (v : float) :
  i < length z ->
  np.set_item z i v = Ok (firstn i z ++ v :: skipn (S i) z).
Proof.
  intros H. unfold np.set_item.
  now replace (i <? length z) with true by (symmetry; now apply Nat.ltb_lt).
Qed.

(** One turn of the loop succeeds whenever the column of the axis exists,
    is not empty and is not longer than [dvals]. *)
Lemma slope_estimate_total (w : world) (ivt : list (list float))
      (xini col : list float) (i : nat) :
  nth_error ivt (i - 1) = Some col ->
  col <> [] ->
  length col <= length (dvals (self w)) ->
  i < length xini ->
  slope_estimate ivt xini i w =
    (Ok (firstn i xini
           ++ slope_value col (dvals (self w)) (dm (self w))
           :: skipn (S i) xini), w).
Proof.
  intros Hcol Hne Hlen Hi.
  pose proof (scan_index_bound np.keep_max col Hne) as Bmax.
  pose proof (scan_index_bound np.keep_min col Hne) as Bmin.
  assert (Dmax : np.scan_index np.keep_max col < length (dvals (self w)))
    by lia.
  assert (Dmin : np.scan_index np.keep_min col < length (dvals (self w)))
    by lia.
  unfold slope_estimate. run.
  rewrite (get_item_ok _ _ _ Hcol), (argmax_index col Hne),
    (argmin_index col Hne).
  rewrite (get_item_ok _ _ _ (nth_error_nth_lt col _ 0%float Bmax)).
  rewrite (get_item_ok _ _ _ (nth_error_nth_lt _ _ 0%float Dmax)).
  rewrite (get_item_ok _ _ _ (nth_error_nth_lt col _ 0%float Bmin)).
  rewrite (get_item_ok _ _ _ (nth_error_nth_lt _ _ 0%float Dmin)).
  rewrite set_item_run by exact Hi. reflexivity.
Qed.


Section GuessEdges.

Variable np_sum : list float -> float.
Variable leastsq :
  (list float -> result (list float)) ->
  list float ->
  (list float -> result (list (list float))) ->
  float -> float ->
  result lsq_output.







(** X10: without a guess and without a dependent value, [dolsq] raises
    [ValueError] (the position of the mean is sought in an empty
    array) before the solver is called, for every solver, and nothing
    is printed. *)
Theorem dolsq_no_samples (iv : list (list float)) (D : nat)
        (out : list printed) (do_print : bool) :
  dolsq np_sum leastsq None do_print (fresh iv [] D out)
    = (Raise ValueError, fresh iv [] D out).
Proof.
  unfold dolsq, initial_guess, heuristic_guess. run.
  cbn [fresh self __init__ npars dvals ivals].
  unfold np.zeros. replace (D + 1) with (S D) by lia. reflexivity.
Qed.

Lemma guess_loop_short (w : world) (iv : list (list float)) (D D' : nat) :
  iv <> [] ->
  length iv <= length (dvals (self w)) ->
  D' < D ->
  forall k a xini,
    1 <= a -> a <= D' + 1 -> a + k = D + 1 -> length xini = D + 1 ->
    foldM (slope_estimate (map (np.column iv) (seq 0 D'))) (seq a k) xini w
      = (Raise IndexError, w).
Proof.
  intros Hne Hlen HD.
  induction k as [|k IH]; intros a xini Ha Ha' Hak Hx; [lia|].
  cbn [seq foldM]. unfold bind at 1.
  destruct (Nat.eq_dec a (D' + 1)) as [->|Hlt].
  - unfold slope_estimate. unfold bind at 1. unfold lift at 1.
    unfold np.get_item.
    replace (nth_error (map (np.column iv) (seq 0 D')) (D' + 1 - 1))
      with (@None (list float)); [reflexivity|].
    symmetry. apply nth_error_None. rewrite length_map, length_seq. lia.
  - assert (Hcol : nth_error (map (np.column iv) (seq 0 D')) (a - 1)
                   = Some (np.column iv (a - 1))).
    { rewrite nth_error_map.
      rewrite (nth_error_nth' _ 0) by (rewrite length_seq; lia).
      rewrite seq_nth by lia. reflexivity. }
    rewrite (slope_estimate_total w _ xini _ a Hcol).
    + apply IH; try lia.
      rewrite length_app, length_firstn. cbn [length].
      rewrite length_skipn. lia.
    + intros E. apply (f_equal (@length float)) in E.
      rewrite column_length in E. destruct iv; [congruence | discriminate].
    + now rewrite column_length.
    + lia.
Qed.

(** X11: when the independent vectors have fewer coordinates than the
    dimension given at construction, [dolsq] without a guess raises
    [IndexError] at the first missing axis, before the solver is
    called. *)
Theorem dolsq_missing_axis (iv : list (list float)) (dv : list float)
        (D D' : nat) (out : list printed) (do_print : bool) :
  dv <> [] ->
  length iv = length dv ->
  rows_of_dim D' iv ->
  D' < D ->
  dolsq np_sum leastsq None do_print (fresh iv dv D out)
    = (Raise IndexError, fresh iv dv D out).
Proof.
  intros Hdv Hlen Hr HD.
  assert (Hiv : iv <> []).
  { intros ->. destruct dv; [congruence | discriminate]. }
  destruct (argmin_nonempty
              (map (fun d => abs (d - np_average np_sum dv)%float) dv))
    as [iave Eave].
  { intros E. apply map_eq_nil in E. contradiction. }
  unfold dolsq. unfold bind at 1.
  unfold initial_guess, heuristic_guess. run.
  cbn [fresh self __init__ npars dvals ivals].
  unfold np.zeros. replace (D + 1) with (S D) by lia.
  cbn [repeat np.set_item length Nat.ltb Nat.leb firstn skipn app np.get_item
         nth_error].
  rewrite Eave, (transpose_run iv D' Hiv Hr).
  replace (S D - 1) with D by lia.
  rewrite (guess_loop_short (fresh iv dv D out) iv D D' Hiv); try lia.
  - reflexivity.
  - cbn. lia.
  - cbn. rewrite repeat_length. lia.
Qed.

End GuessEdges.

(* ================================================================== *)
(** * The solve, the errors and the printing                            *)
(* ================================================================== *)

Lemma forM_print_run {A : Type} (g : A -> printed) (l : list A) (w : world) :
  forM_ (fun a => print (g a)) l w
    = (Ok tt, {| self := self w; stdout := stdout w ++ map g l |}).
Proof.
  revert w. induction l as [|a l IH]; intros w; cbn [forM_ map].
  - rewrite app_nil_r. now destruct w.
  - unfold bind at 1. unfold print at 1. rewrite IH. cbn [self stdout].
    now rewrite <- app_assoc.
Qed.

Section SolveEdges.

Variable np_sum : list float -> float.
Variable leastsq :
  (list float -> result (list float)) ->
  list float ->
  (list float -> result (list (list float))) ->
  float -> float ->
  result lsq_output.

Lemma report_run (o : lsq_output) (perr : list (option float)) (w : world) :
  report o perr w
    = (Ok tt, {| self := self w; stdout := stdout w ++ report_lines o perr |}).
Proof.
  unfold report.
  unfold bind at 1. unfold print at 1.
  unfold bind at 1. unfold print at 1.
  unfold bind at 1.
  rewrite (forM_print_run (fun kv => PrintItem (fst kv) (snd kv))).
  unfold bind at 1. unfold print at 1. unfold print.
  cbn [self stdout]. unfold report_lines.
  rewrite <- !app_assoc. reflexivity.
Qed.

(** The stages of [solve_from] once the solver has answered and the
    residuals at the optimum are known. *)
Lemma solve_from_stages (w : world) (xini : list float) (do_print : bool)
      (o : lsq_output) (resd : list float) :
  fst (call_solver np_sum leastsq xini w) = Ok o ->
  fst (objfun np_sum (popt o) w) = Ok resd ->
  exists perr,
    parameter_errors np_sum (pcov o) resd w = (Ok perr, w) /\
    solve_from np_sum leastsq xini do_print w
      = (Ok (popt o, perr),
         if do_print
         then {| self := self w; stdout := stdout w ++ report_lines o perr |}
         else w).
Proof.
  intros Hs Hr.
  assert (Hp : exists perr,
             parameter_errors np_sum (pcov o) resd w = (Ok perr, w)).
  { destruct (Z.ltb_spec 0 (ndf (self w))) as [Hn|Hn].
    - destruct (pcov o) as [pc|].
      + eexists. now apply parameter_errors_some.
      + eexists. apply parameter_errors_none. now right.
    - eexists. apply parameter_errors_none. now left. }
  destruct Hp as [perr Hp]. exists perr. split; [exact Hp|].
  unfold solve_from.
  unfold bind at 1.
  rewrite (reads_run _ w (call_solver_reads np_sum leastsq xini)), Hs.
  unfold bind at 1.
  rewrite (reads_run _ w (objfun_reads np_sum (popt o))), Hr.
  unfold bind at 1. rewrite Hp.
  unfold bind at 1. destruct do_print.
  - rewrite report_run. reflexivity.
  - reflexivity.
Qed.

(** X12: an exception raised by the solver leaves [dolsq] as it is:
    nothing is printed, even with [do_print] set, and the object is
    untouched. *)
Theorem dolsq_solver_raises (w : world) (guess : option (list float))
        (do_print : bool) (xini : list float) (e : exn) :
  fst (initial_guess np_sum guess w) = Ok xini ->
  fst (call_solver np_sum leastsq xini w) = Raise e ->
  dolsq np_sum leastsq guess do_print w = (Raise e, w).
Proof.
  intros Hg Hs. rewrite (dolsq_run np_sum leastsq w guess do_print xini Hg).
  unfold solve_from. unfold bind at 1.
  rewrite (reads_run _ w (call_solver_reads np_sum leastsq xini)), Hs.
  reflexivity.
Qed.

(** X13: what [do_print] changes.  When the silent call returns
    [(p, perr)], the printing call returns the same pair and appends to
    the output the parameters, the errors, one line per entry of the
    diagnostics in their order, the message and the status code; the
    silent call leaves the output as it was. *)
Theorem dolsq_prints (w : world) (guess : option (list float))
        (xini : list float) (o : lsq_output) (p : list float)
        (perr : list (option float)) :
  fst (initial_guess np_sum guess w) = Ok xini ->
  fst (call_solver np_sum leastsq xini w) = Ok o ->
  fst (dolsq np_sum leastsq guess false w) = Ok (p, perr) ->
  dolsq np_sum leastsq guess false w = (Ok (p, perr), w) /\
  dolsq np_sum leastsq guess true w
    = (Ok (p, perr),
       {| self := self w; stdout := stdout w ++ report_lines o perr |}) /\
  p = popt o.
Proof.
  intros Hg Hs Hsilent.
  rewrite (dolsq_run np_sum leastsq w guess false xini Hg) in *.
  rewrite (dolsq_run np_sum leastsq w guess true xini Hg).
  destruct (fst (objfun np_sum (popt o) w)) as [resd|e] eqn:Hr.
  - destruct (solve_from_stages w xini false o resd Hs Hr) as [q [Hq Ef]].
    destruct (solve_from_stages w xini true o resd Hs Hr) as [q' [Hq' Et]].
    assert (q' = q) by congruence. subst q'.
    rewrite Ef in Hsilent. cbn [fst] in Hsilent.
    inversion Hsilent; subst p perr.
    rewrite Ef, Et. repeat split.
  - exfalso. unfold solve_from in Hsilent. unfold bind at 1 in Hsilent.
    rewrite (reads_run _ w (call_solver_reads np_sum leastsq xini)), Hs
      in Hsilent.
    unfold bind at 1 in Hsilent.
    rewrite (reads_run _ w (objfun_reads np_sum (popt o))), Hr in Hsilent.
    discriminate.
Qed.

Lemma diag_from_map (f : float -> float) (m : list (list float)) :
  forall i, np.diag_from i (map (map f) m) = map f (np.diag_from i m).
Proof.
  induction m as [|r m IH]; intros i; cbn [map np.diag_from].
  - reflexivity.
  - rewrite nth_error_map. destruct (nth_error r i) as [v|]; cbn.
    + now rewrite IH.
    + reflexivity.
Qed.

(** X14: when [dolsq] returns, its errors are all [None] exactly when
    there are at most [D + 1] samples ([ndf <= 0]: an exactly
    determined fit has no error estimate) or the solver gave no
    covariance.  Otherwise every error is a number: one entry per
    diagonal entry [c] of the covariance, the square root of [c] times
    the residual variance. *)
Theorem dolsq_errors_undefined_iff (iv : list (list float)) (dv : list float)
        (D : nat) (out : list printed) (guess : option (list float))
        (do_print : bool) (xini : list float) (o : lsq_output)
        (resd : list float) :
  let w := fresh iv dv D out in
  fst (initial_guess np_sum guess w) = Ok xini ->
  fst (call_solver np_sum leastsq xini w) = Ok o ->
  fst (objfun np_sum (popt o) w) = Ok resd ->
  exists perr,
    fst (dolsq np_sum leastsq guess do_print w) = Ok (popt o, perr) /\
    (perr = repeat None (D + 1) <-> length dv <= D + 1 \/ pcov o = None) /\
    (forall pc,
        D + 1 < length dv -> pcov o = Some pc ->
        perr = map (fun c =>
                      Some (sqrt (c * (np_sum (map (fun r => r * r)%float resd)
                                       / float_of_Z (ndf (self w))))%float))
                   (np.diag pc)).
Proof.
  intros w Hg Hs Hr.
  rewrite (dolsq_run np_sum leastsq w guess do_print xini Hg).
  destruct (solve_from_stages w xini do_print o resd Hs Hr) as [perr [Hp E]].
  exists perr. rewrite E. split; [reflexivity|].
  assert (Hn : ndf (self w) = (Z.of_nat (length dv) - Z.of_nat (D + 1))%Z)
    by reflexivity.
  destruct (Z.ltb_spec 0 (ndf (self w))) as [Hpos|Hneg].
  - destruct (pcov o) as [pc|] eqn:Hpc.
    + rewrite (parameter_errors_some np_sum w pc resd Hpos) in Hp.
      injection Hp as Hperr. subst perr. split; [split|].
      * intros Hall. exfalso.
        replace (D + 1) with (S D) in Hall by lia. cbn [repeat] in Hall.
        match type of Hall with
        | map Some ?l = _ => destruct l; discriminate
        end.
      * intros [H|H]; [lia | discriminate].
      * intros pc' _ Epc. injection Epc as <-.
        unfold np.diag. rewrite diag_from_map, !map_map. reflexivity.
    + rewrite (parameter_errors_none np_sum w None resd (or_intror eq_refl))
        in Hp.
      injection Hp as Hperr. subst perr.
      split; [split; [now right | reflexivity]|].
      intros pc _ Epc. discriminate.
  - rewrite (parameter_errors_none np_sum w _ resd (or_introl Hneg)) in Hp.
    injection Hp as Hperr. subst perr.
    split; [split; [left; lia | reflexivity]|].
    intros pc Hlt _. lia.
Qed.

(** X16: the methods handed to the solver never print and never change
    the object, whether they return or raise, and neither does a call
    of [dolsq] without [do_print]. *)
Theorem methods_read_only (x pars : list float)
        (guess : option (list float)) (w : world) :
  snd (zcoord x w) = w /\
  snd (fplane np_sum x pars w) = w /\
  snd (objfun np_sum pars w) = w /\
  snd (objjac pars w) = w /\
  snd (dolsq np_sum leastsq guess false w) = w.
Proof.
  split; [apply zcoord_reads|].
  split; [apply fplane_reads|].
  split; [apply objfun_reads|].
  split; [apply objjac_reads|].
  assert (R : reads (dolsq np_sum leastsq guess false)).
  { unfold dolsq, solve_from.
    apply reads_bind; [apply initial_guess_reads|]. intros xini.
    apply reads_bind; [apply call_solver_reads|]. intros o.
    apply reads_bind; [apply objfun_reads|]. intros resd.
    apply reads_bind; [apply parameter_errors_reads|]. intros perr.
    apply reads_bind; [apply reads_ret|]. intros _. apply reads_ret. }
  apply R.
Qed.

End SolveEdges.

(* ================================================================== *)
(** * The further properties at concrete inputs                         *)
(* ================================================================== *)

Lemma zcoord_truncates_flat :
  zcoord [2%float; 3%float; 9%float] flat_world
    = (Ok (1%float :: firstn 2 [2%float; 3%float; 9%float]), flat_world).
Proof.
  apply (zcoord_truncates flat_iv flat_dv 2 [] [2%float; 3%float; 9%float]).
  cbn. lia.
Defined.

Lemma zcoord_rejects_short_pair :
  zcoord [7%float; 8%float] (fresh flat_iv flat_dv 3 [])
    = (Raise ValueError, fresh flat_iv flat_dv 3 []).
Proof.
  apply (zcoord_rejects_short flat_iv flat_dv 3 [] [7%float; 8%float]).
  - cbn. lia.
  - discriminate.
Defined.

Lemma objfun_pairs_samples_ramp :
  exists r J,
    objfun sum_in_order [5%float; 2%float] (fresh ramp_iv exact_dv 1 [])
      = (Ok r, fresh ramp_iv exact_dv 1 []) /\
    objjac [5%float; 2%float] (fresh ramp_iv exact_dv 1 [])
      = (Ok J, fresh ramp_iv exact_dv 1 []) /\
    length r = Nat.min (length exact_dv) (length ramp_iv) /\
    length J = length ramp_iv /\
    (length r = length J <-> length ramp_iv <= length exact_dv) /\
    (length exact_dv < length ramp_iv -> length r < length J).
Proof.
  apply (objfun_pairs_samples sum_in_order ramp_iv exact_dv 1 []
           [5%float; 2%float]).
  - repeat constructor.
  - reflexivity.
Defined.

Lemma objfun_broadcasts_single_ramp :
  exists r,
    objfun sum_in_order [1%float] ramp_world = (Ok r, ramp_world) /\
    forall i d x,
      nth_error ramp_dv i = Some d ->
      nth_error ramp_iv i = Some x ->
      nth_error r i
        = Some (d - sum_in_order (map (fun a => (a * 1)%float)
                                      (1%float :: x)))%float.
Proof.
  apply (objfun_broadcasts_single sum_in_order ramp_iv ramp_dv 1 [] 1%float).
  repeat constructor.
Defined.

Lemma objfun_wrong_length_cases_ramp :
  (ramp_iv <> [] /\ ramp_dv <> [] ->
   objfun sum_in_order [1%float; 2%float; 3%float] ramp_world
     = (Raise ValueError, ramp_world)) /\
  (ramp_iv = [] \/ ramp_dv = [] ->
   objfun sum_in_order [1%float; 2%float; 3%float] ramp_world
     = (Ok [], ramp_world)).
Proof.
  apply (objfun_wrong_length_cases sum_in_order ramp_iv ramp_dv 1 []
           [1%float; 2%float; 3%float]).
  - lia.
  - discriminate.
  - discriminate.
Defined.

Lemma objfun_from_objjac_line :
  exists r J,
    objfun sum_in_order [5.5%float; 2%float] line_world = (Ok r, line_world) /\
    objjac [5.5%float; 2%float] line_world = (Ok J, line_world) /\
    forall i d row,
      nth_error line_dv i = Some d ->
      nth_error J i = Some row ->
      nth_error r i
        = Some (d - sum_in_order
                      (np.mul (map PrimFloat.opp row) [5.5%float; 2%float]))
            %float.
Proof.
  apply (objfun_from_objjac sum_in_order line_iv line_dv 1 []
           [5.5%float; 2%float]).
  - repeat constructor.
  - reflexivity.
Defined.



Lemma dolsq_missing_axis_ramp :
  dolsq sum_in_order (probe_leastsq stay) None true (fresh ramp_iv ramp_dv 2 [])
    = (Raise IndexError, fresh ramp_iv ramp_dv 2 []).
Proof.
  apply (dolsq_missing_axis sum_in_order (probe_leastsq stay)
           ramp_iv ramp_dv 2 1 [] true).
  - discriminate.
  - reflexivity.
  - repeat constructor.
  - lia.
Defined.

Lemma dolsq_solver_raises_ramp :
  dolsq sum_in_order failing_leastsq (Some [5%float; 2%float]) true ramp_world
    = (Raise TypeError, ramp_world).
Proof.
  apply (dolsq_solver_raises sum_in_order failing_leastsq ramp_world
           (Some [5%float; 2%float]) true [5%float; 2%float] TypeError).
  - reflexivity.
  - reflexivity.
Defined.

Lemma dolsq_prints_line :
  dolsq sum_in_order (probe_leastsq line_fit) (Some [5%float; 1%float])
    false line_world
    = (Ok ([5.5%float; 2%float],
           [Some (sqrt 0.125%float); Some (sqrt 0.125%float)]),
       line_world) /\
  dolsq sum_in_order (probe_leastsq line_fit) (Some [5%float; 1%float])
    true line_world
    = (Ok ([5.5%float; 2%float],
           [Some (sqrt 0.125%float); Some (sqrt 0.125%float)]),
       {| self := self line_world;
          stdout := stdout line_world
                    ++ report_lines (line_fit [5%float; 1%float])
                         [Some (sqrt 0.125%float);
                          Some (sqrt 0.125%float)] |}) /\
  [5.5%float; 2%float] = popt (line_fit [5%float; 1%float]).
Proof.
  apply (dolsq_prints sum_in_order (probe_leastsq line_fit) line_world
           (Some [5%float; 1%float]) [5%float; 1%float]
           (line_fit [5%float; 1%float])).
  - reflexivity.
  - vm_compute. reflexivity.
  - vm_compute. reflexivity.
Defined.

Lemma dolsq_errors_undefined_iff_exact :
  exists perr,
    fst (dolsq sum_in_order (checked_leastsq exact_fit)
           (Some [5%float; 2%float]) false (fresh exact_iv exact_dv 1 []))
      = Ok (popt (exact_fit [5%float; 2%float]), perr) /\
    (perr = repeat None (1 + 1) <->
     length exact_dv <= 1 + 1 \/
     pcov (exact_fit [5%float; 2%float]) = None) /\
    (forall pc,
        1 + 1 < length exact_dv ->
        pcov (exact_fit [5%float; 2%float]) = Some pc ->
        perr = map (fun c =>
                      Some (sqrt (c * (sum_in_order
                                         (map (fun r => r * r)%float
                                              [0%float; 0%float])
                                       / float_of_Z
                                           (ndf (self (fresh exact_iv
                                                         exact_dv 1 [])))))
                              %float))
                   (np.diag pc)).
Proof.
  apply (dolsq_errors_undefined_iff sum_in_order (checked_leastsq exact_fit)
           exact_iv exact_dv 1 [] (Some [5%float; 2%float]) false
           [5%float; 2%float] (exact_fit [5%float; 2%float])
           [0%float; 0%float]).
  - reflexivity.
  - vm_compute. reflexivity.
  - vm_compute. reflexivity.
Defined.

